(** * Segment and polygon clipping against a rectangular window

    A shallow embedding of [app.py]: the input parser [parse_input_data],
    the inside test [is_inside], the segment clipper [cohen_sutherland_clip]
    and the polygon clipper [sutherland_hodgman_clip].

    Coordinates are exact rationals ([Q]); the comparisons of the program are
    the boolean comparisons of [Q].  Python exceptions are values of [exn],
    and every function that can raise returns a [result]. *)

From Stdlib Require Import QArith Qfield Lqa Lia ZArith List Bool.
From Stdlib Require Import String Ascii DecimalString Permutation Sorted.
Import ListNotations.

Open Scope Q_scope.

(** ** Exceptions *)

Inductive exn : Type :=
| ValueError (msg : string)      (* raise ValueError(msg) of the program *)
| LiteralError (tok : string)    (* ValueError of int() or float() on tok *)
| IndexError                     (* list index out of range *)
| ZeroDivisionError.             (* float division by zero *)

Inductive result (A : Type) : Type :=
| Ok (a : A)
| Raise (e : exn).

Arguments Ok {A} a.
Arguments Raise {A} e.

Definition bind {A B : Type} (m : result A) (k : A -> result B) : result B :=
  match m with
  | Ok a => k a
  | Raise e => Raise e
  end.

Notation "x <- m ;; k" := (bind m (fun x => k))
  (at level 61, m at next level, right associativity).

(** ** Python list access and arithmetic *)

(** [l[i]] for a Python list: a negative index counts from the end. *)
Definition getitem {A : Type} (l : list A) (i : Z) : result A :=
  let len := Z.of_nat (List.length l) in
  let j := (if i <? 0 then len + i else i)%Z in
  if (j <? 0)%Z then Raise IndexError
  else match nth_error l (Z.to_nat j) with
       | Some a => Ok a
       | None => Raise IndexError
       end.

(** [a / b] on floats raises when the divisor is zero. *)
Definition qdiv (a b : Q) : result Q :=
  if Qeq_bool b 0 then Raise ZeroDivisionError else Ok (a / b).

(** [sorted(l)]: a stable ascending sort. *)
Fixpoint insert (x : Q) (l : list Q) : list Q :=
  match l with
  | [] => [x]
  | y :: l' => if Qle_bool x y then x :: y :: l' else y :: insert x l'
  end.

Fixpoint sorted (l : list Q) : list Q :=
  match l with
  | [] => []
  | x :: l' => insert x (sorted l')
  end.

(** ** Geometry types *)

Definition point : Type := Q * Q.
Definition segment : Type := point * point.
Definition polygon : Type := list point.

Record window : Type := Window {
  Xmin : Q;
  Ymin : Q;
  Xmax : Q;
  Ymax : Q
}.

Definition well_formed (w : window) : Prop :=
  Xmin w <= Xmax w /\ Ymin w <= Ymax w.

Definition point_eq (p q : point) : Prop :=
  fst p == fst q /\ snd p == snd q.

Definition segment_eq (s r : segment) : Prop :=
  point_eq (fst s) (fst r) /\ point_eq (snd s) (snd r).

(** ** is_inside *)

Definition is_inside (p : point) (w : window) : bool :=
  let '(x, y) := p in
  Qle_bool (Xmin w) x && Qle_bool x (Xmax w)
  && (Qle_bool (Ymin w) y && Qle_bool y (Ymax w)).

(** ** cohen_sutherland_clip *)

Definition compute_t (boundary_value start delta : Q) : result (option Q) :=
  if Qeq_bool delta 0 then Ok None
  else
    t <- qdiv (boundary_value - start) delta ;;
    if Qle_bool 0 t && Qle_bool t 1 then Ok (Some t) else Ok None.

(** [if t is not None: t_values.append(t)] (both branches of the inner test
    of the program append the same value). *)
Definition append_t (t_values : list Q) (t : option Q) : list Q :=
  match t with
  | Some v => t_values ++ [v]
  | None => t_values
  end.

(** The list [t_values] before it is sorted: the retained crossing
    parameters in the order left, right, bottom, top. *)
Definition crossings (s : segment) (w : window) : result (list Q) :=
  let '((x1, y1), (x2, y2)) := s in
  t_left <- compute_t (Xmin w) x1 (x2 - x1) ;;
  let t_values := append_t [] t_left in
  t_right <- compute_t (Xmax w) x1 (x2 - x1) ;;
  let t_values := append_t t_values t_right in
  t_bottom <- compute_t (Ymin w) y1 (y2 - y1) ;;
  let t_values := append_t t_values t_bottom in
  t_top <- compute_t (Ymax w) y1 (y2 - y1) ;;
  Ok (append_t t_values t_top).

(** The point [p1 + t * (p2 - p1)]. *)
Definition point_at (s : segment) (t : Q) : point :=
  let '((x1, y1), (x2, y2)) := s in
  (x1 + t * (x2 - x1), y1 + t * (y2 - y1)).

Definition cohen_sutherland_clip (s : segment) (w : window)
  : result (option segment) :=
  let '(p1, p2) := s in
  t_values <- crossings s w ;;
  let t_values := sorted t_values in
  if is_inside p1 w && is_inside p2 w then Ok (Some (p1, p2))
  else if is_inside p1 w then
    t <- getitem t_values 0 ;;
    Ok (Some (p1, point_at s t))
  else if is_inside p2 w then
    t <- getitem t_values (-1) ;;
    Ok (Some (point_at s t, p2))
  else if (2 <=? List.length t_values)%nat then
    t1 <- getitem t_values 0 ;;
    t2 <- getitem t_values 1 ;;
    Ok (Some (point_at s t1, point_at s t2))
  else Ok None.

(** ** sutherland_hodgman_clip *)

Inductive edge : Type := Left | Bottom | Right | Top.

Inductive axis_t : Type := AxisX | AxisY.

Definition coord (p : point) (a : axis_t) : Q :=
  match a with
  | AxisX => fst p
  | AxisY => snd p
  end.

Definition accept (e : edge) (w : window) (p : point) : bool :=
  match e with
  | Left => Qle_bool (Xmin w) (fst p)
  | Bottom => Qle_bool (Ymin w) (snd p)
  | Right => Qle_bool (fst p) (Xmax w)
  | Top => Qle_bool (snd p) (Ymax w)
  end.

Definition boundary (e : edge) (w : window) : Q :=
  match e with
  | Left => Xmin w
  | Bottom => Ymin w
  | Right => Xmax w
  | Top => Ymax w
  end.

Definition axis (e : edge) : axis_t :=
  match e with
  | Left | Right => AxisX
  | Bottom | Top => AxisY
  end.

(** What one iteration of the loop of [clip_edge] does: it appends points to
    [new_polygon] and falls through to [p0 = p1], or it leaves the iteration
    by [continue]. *)
Inductive action : Type :=
| Append (pts : list point)
| Continue.

Definition intersection (p0 p1 : point) (t : Q) : point :=
  (fst p0 + t * (fst p1 - fst p0), snd p0 + t * (snd p1 - snd p0)).

Definition visit (w : window) (e : edge) (p0 p1 : point) : result action :=
  let accept_p1 := accept e w p1 in
  let accept_p0 := accept e w p0 in
  let delta := coord p1 (axis e) - coord p0 (axis e) in
  if accept_p1 then
    if negb accept_p0 then
      t <- qdiv (boundary e w - coord p0 (axis e)) delta ;;
      if Qeq_bool delta 0 then Ok Continue
      else Ok (Append [intersection p0 p1 t; p1])
    else Ok (Append [p1])
  else
    if accept_p0 then
      t <- qdiv (boundary e w - coord p0 (axis e)) delta ;;
      if Qeq_bool delta 0 then Ok Continue
      else Ok (Append [intersection p0 p1 t])
    else Ok (Append []).

(** The loop [for p1 in polygon], on the state [(new_polygon, p0)]. *)
Fixpoint clip_loop (w : window) (e : edge) (new_polygon : polygon)
    (p0 : point) (rest : polygon) : result polygon :=
  match rest with
  | [] => Ok new_polygon
  | p1 :: rest' =>
      a <- visit w e p0 p1 ;;
      match a with
      | Append pts => clip_loop w e (new_polygon ++ pts) p1 rest'
      | Continue => clip_loop w e new_polygon p0 rest'
      end
  end.

Definition clip_edge (w : window) (poly : polygon) (e : edge)
  : result polygon :=
  p0 <- getitem poly (-1) ;;
  clip_loop w e [] p0 poly.

Definition sutherland_hodgman_clip (poly : polygon) (w : window)
  : result polygon :=
  poly <- clip_edge w poly Left ;;
  poly <- clip_edge w poly Bottom ;;
  poly <- clip_edge w poly Right ;;
  clip_edge w poly Top.

(** ** Strings: strip, split, startswith *)

Open Scope string_scope.

(** [c.isspace()] on the ASCII range. *)
Definition is_space (c : ascii) : bool :=
  let n := nat_of_ascii c in
  ((9 <=? n) && (n <=? 13) || (28 <=? n) && (n <=? 32))%nat.

Fixpoint lstrip (s : string) : string :=
  match s with
  | String c s' => if is_space c then lstrip s' else s
  | EmptyString => EmptyString
  end.

Fixpoint rev_string (s acc : string) : string :=
  match s with
  | String c s' => rev_string s' (String c acc)
  | EmptyString => acc
  end.

Definition strip (s : string) : string :=
  rev_string (lstrip (rev_string (lstrip s) "")) "".

(** [s.split()]: the maximal runs of characters that are not whitespace.
    [cur] is the run being read. *)
Fixpoint split_from (s cur : string) : list string :=
  match s with
  | String c s' =>
      if is_space c then
        match cur with
        | EmptyString => split_from s' ""
        | _ => cur :: split_from s' ""
        end
      else split_from s' (cur ++ String c "")
  | EmptyString =>
      match cur with
      | EmptyString => []
      | _ => [cur]
      end
  end.

Definition split (s : string) : list string := split_from s "".

Definition startswith_P (s : string) : bool :=
  match s with
  | String c _ => Ascii.eqb c "P"
  | EmptyString => false
  end.

(** [s[1:]] *)
Definition from_1 (s : string) : string :=
  match s with
  | String _ s' => s'
  | EmptyString => EmptyString
  end.

(** [str(i)] inside a formatted message. *)
Definition str_of_Z (i : Z) : string :=
  NilZero.string_of_int (Z.to_int i).

(** ** parse_input_data *)

Definition parsed : Type := list segment * window * polygon.

Section Parse.

(** [int(s)] and [float(s)] of Python: [None] when they raise. *)
Variable int_of_string : string -> option Z.
Variable float_of_string : string -> option Q.

Definition py_int (s : string) : result Z :=
  match int_of_string s with
  | Some n => Ok n
  | None => Raise (LiteralError s)
  end.

Definition py_float (s : string) : result Q :=
  match float_of_string s with
  | Some q => Ok q
  | None => Raise (LiteralError s)
  end.

(** [list(map(float, toks))] *)
Fixpoint floats (toks : list string) : result (list Q) :=
  match toks with
  | [] => Ok []
  | tok :: toks' =>
      q <- py_float tok ;;
      qs <- floats toks' ;;
      Ok (q :: qs)
  end.

(** The body of [for i in range(1, n + 1)], run [count] times from [i]. *)
Fixpoint parse_segments (data : list string) (i : Z) (count : nat)
    (segments : list segment) : result (list segment) :=
  match count with
  | O => Ok segments
  | S count' =>
      raw <- getitem data i ;;
      let line := strip raw in
      match line with
      | EmptyString =>
          Raise (ValueError
            ("Missing segment data at line " ++ str_of_Z (i + 1) ++ "."))
      | _ =>
          coords <- floats (split line) ;;
          match coords with
          | [x1; y1; x2; y2] =>
              parse_segments data (i + 1) count'
                (segments ++ [((x1, y1), (x2, y2))])
          | _ =>
              Raise (ValueError
                ("Invalid segment data at line " ++ str_of_Z (i + 1)
                 ++ ". Expected 4 coordinates."))
          end
      end
  end.

(** [[(vertices[i], vertices[i + 1]) for i in range(0, len(vertices), 2)]] *)
Fixpoint pairs (vertices : list Q) : result polygon :=
  match vertices with
  | [] => Ok []
  | [_] => Raise IndexError
  | x :: y :: rest =>
      ps <- pairs rest ;;
      Ok ((x, y) :: ps)
  end.

Definition parse_polygon (data : list string) (n : Z) : result polygon :=
  if (Z.of_nat (List.length data) >? n + 2)%Z then
    line <- getitem data (n + 2) ;;
    if startswith_P line then
      vertices <- floats (split (from_1 line)) ;;
      if (List.length vertices <? 2)%nat then
        Raise (ValueError
          "Invalid polygon data. At least one vertex required.")
      else if negb (Nat.even (List.length vertices)) then
        Raise (ValueError
          "Invalid polygon data. Coordinates must be in pairs.")
      else pairs vertices
    else
      Raise (ValueError
        "Invalid data format. Expected polygon data starting with 'P'.")
  else Ok [].

Definition parse_input_data (data : list string) : result parsed :=
  match data with
  | [] => Raise (ValueError "No input data provided.")
  | _ =>
      line0 <- getitem data 0 ;;
      n <- py_int line0 ;;
      segments <- parse_segments data 1 (Z.to_nat n) [] ;;
      if (Z.of_nat (List.length data) <? n + 2)%Z then
        Raise (ValueError "Missing clipping window data.")
      else
        wline <- getitem data (n + 1) ;;
        clipping_window <- floats (split wline) ;;
        match clipping_window with
        | [xmin; ymin; xmax; ymax] =>
            poly <- parse_polygon data n ;;
            Ok (segments, Window xmin ymin xmax ymax, poly)
        | _ =>
            Raise (ValueError
              "Invalid clipping window data. Expected 4 coordinates.")
        end
  end.

End Parse.

(** *** Decimal literals

    The theorems about the parser hold for every [int_of_string] and
    [float_of_string].  To run the parser on examples, the plain decimal
    literals among those [int()] and [float()] accept are read by
    [dec_int] and [dec_float]: an optional sign, digits, and for
    [dec_float] an optional fraction. *)

Definition digit_of (c : ascii) : option Z :=
  let n := nat_of_ascii c in
  if ((48 <=? n) && (n <=? 57))%nat then Some (Z.of_nat (n - 48)) else None.

(** Reads digits up to the end of [s]; [acc] is the value read so far and
    [seen] tells whether a digit was read. *)
Fixpoint digits (s : string) (acc : Z) (seen : bool) : option Z :=
  match s with
  | EmptyString => if seen then Some acc else None
  | String c s' =>
      match digit_of c with
      | Some d => digits s' (10 * acc + d)%Z true
      | None => None
      end
  end.

Definition signed {A : Type} (body : string -> option A) (neg : A -> A)
    (s : string) : option A :=
  match s with
  | String "-" s' => option_map neg (body s')
  | String "+" s' => body s'
  | _ => body s
  end.

Definition dec_int : string -> option Z :=
  signed (fun s => digits s 0%Z false) Z.opp.

(** Reads [digits.digits]: [num] over [den] is the value read so far. *)
Fixpoint fraction (s : string) (num : Z) (den : positive) (seen dot : bool)
  : option Q :=
  match s with
  | EmptyString => if seen then Some (num # den) else None
  | String c s' =>
      if Ascii.eqb c "." then
        if dot then None else fraction s' num den seen true
      else
        match digit_of c with
        | Some d =>
            fraction s' (10 * num + d)%Z (if dot then 10 * den else den)%positive
              true dot
        | None => None
        end
  end.

Definition dec_float : string -> option Q :=
  signed (fun s => fraction s 0%Z 1%positive false false) Qopp.

Definition parse : list string -> result parsed :=
  parse_input_data dec_int dec_float.

Close Scope string_scope.

(** ** The request handler: parsing, then clipping

    The part of [index] between the lines of the request and the plots.
    An exception of the parser is caught and answered with status 400; the
    clippers are called outside the [try], their exceptions are not
    caught. *)





Section Handler.

Variable int_of_string : string -> option Z.
Variable float_of_string : string -> option Q.


End Handler.

(** ** Notions used to state the properties *)

(** [compute_t] as a value: the parameter it retains, if any. *)
Definition candidate (boundary_value start delta : Q) : option Q :=
  if Qeq_bool delta 0 then None
  else
    let t := (boundary_value - start) / delta in
    if Qle_bool 0 t && Qle_bool t 1 then Some t else None.

(** [t] is the parameter at which the line through the segment crosses one
    of the four boundary lines of the window. *)
Definition crossing_of (s : segment) (w : window) (t : Q) : Prop :=
  let '((x1, y1), (x2, y2)) := s in
  (~ x2 - x1 == 0 /\
   (t = (Xmin w - x1) / (x2 - x1) \/ t = (Xmax w - x1) / (x2 - x1)))
  \/
  (~ y2 - y1 == 0 /\
   (t = (Ymin w - y1) / (y2 - y1) \/ t = (Ymax w - y1) / (y2 - y1))).

Definition inside (p : point) (w : window) : Prop :=
  Xmin w <= fst p <= Xmax w /\ Ymin w <= snd p <= Ymax w.




(** The coordinates of a polygon in the order of its vertices. *)
Fixpoint flatten (poly : polygon) : list Q :=
  match poly with
  | [] => []
  | (x, y) :: poly' => x :: y :: flatten poly'
  end.

(** The line [raw] is read as the segment [s]: it is not blank and its
    tokens are the four coordinates of [s]. *)
Definition reads_segment (float_of_string : string -> option Q)
    (raw : string) (s : segment) : Prop :=
  strip raw <> EmptyString /\
  floats float_of_string (split (strip raw))
  = Ok [fst (fst s); snd (fst s); fst (snd s); snd (snd s)].

(** * Properties *)

(** ** Comparisons and division *)

Lemma Qle_bool_true (a b : Q) : Qle_bool a b = true -> a <= b.
Proof. apply Qle_bool_iff. Qed.

Lemma Qle_bool_false (a b : Q) : Qle_bool a b = false -> b < a.
Proof.
  intros H. apply Qnot_le_lt. intros Hle.
  apply Qle_bool_iff in Hle. congruence.
Qed.

Lemma Qeq_bool_false (a b : Q) : Qeq_bool a b = false -> ~ a == b.
Proof. intros H Heq. apply Qeq_bool_iff in Heq. congruence. Qed.

Lemma Qeq_bool_no (a b : Q) : ~ a == b -> Qeq_bool a b = false.
Proof.
  intros H. destruct (Qeq_bool a b) eqn:E; [|reflexivity].
  apply Qeq_bool_iff in E. contradiction.
Qed.

Ltac bools :=
  repeat match goal with
  | H : _ && _ = true |- _ => apply andb_true_iff in H; destruct H
  | H : Qle_bool _ _ = true |- _ => apply Qle_bool_true in H
  | H : Qle_bool _ _ = false |- _ => apply Qle_bool_false in H
  | H : Qeq_bool _ _ = true |- _ => apply Qeq_bool_iff in H
  | H : Qeq_bool _ _ = false |- _ => apply Qeq_bool_false in H
  end.

Lemma qdiv_ok (a b : Q) : ~ b == 0 -> qdiv a b = Ok (a / b).
Proof. intros H. unfold qdiv. now rewrite (Qeq_bool_no _ _ H). Qed.

Lemma ratio_range_pos (n d : Q) : 0 <= n -> n <= d -> 0 < d -> 0 <= n / d <= 1.
Proof.
  intros Hn Hd Hpos. split.
  - apply Qle_shift_div_l; [assumption|lra].
  - apply Qle_shift_div_r; [assumption|lra].
Qed.

Lemma ratio_range_neg (n d : Q) : n <= 0 -> d <= n -> d < 0 -> 0 <= n / d <= 1.
Proof.
  intros Hn Hd Hneg.
  assert (E : n / d == (- n) / (- d)) by (field; lra).
  rewrite E. apply ratio_range_pos; lra.
Qed.

(** A point between [a] and [b] stays on the side of a bound that holds
    both. *)
Lemma between_ge (a b t lo : Q) :
  0 <= t -> t <= 1 -> lo <= a -> lo <= b -> lo <= a + t * (b - a).
Proof.
  intros H0 H1 Ha Hb.
  assert (Hc : 0 <= (1 - t) * (a - lo)) by (apply Qmult_le_0_compat; lra).
  assert (Hd : 0 <= t * (b - lo)) by (apply Qmult_le_0_compat; lra).
  assert (E : a + t * (b - a) - lo == (1 - t) * (a - lo) + t * (b - lo))
    by ring.
  lra.
Qed.

Lemma between_le (a b t hi : Q) :
  0 <= t -> t <= 1 -> a <= hi -> b <= hi -> a + t * (b - a) <= hi.
Proof.
  intros H0 H1 Ha Hb.
  assert (Hc : 0 <= (1 - t) * (hi - a)) by (apply Qmult_le_0_compat; lra).
  assert (Hd : 0 <= t * (hi - b)) by (apply Qmult_le_0_compat; lra).
  assert (E : hi - (a + t * (b - a)) == (1 - t) * (hi - a) + t * (hi - b))
    by ring.
  lra.
Qed.

Lemma cross_exact (a b c : Q) : ~ b - a == 0 -> a + (c - a) / (b - a) * (b - a) == c.
Proof. intros H. field. exact H. Qed.

(** ** List access *)

Lemma getitem_0 {A : Type} (x : A) (l : list A) : getitem (x :: l) 0 = Ok x.
Proof. reflexivity. Qed.

Lemma getitem_1 {A : Type} (x y : A) (l : list A) :
  getitem (x :: y :: l) 1 = Ok y.
Proof. reflexivity. Qed.

Lemma getitem_nat {A : Type} (l : list A) (i : nat) :
  getitem l (Z.of_nat i) =
  match nth_error l i with Some a => Ok a | None => Raise IndexError end.
Proof.
  unfold getitem.
  destruct (Z.of_nat i <? 0)%Z eqn:E; [apply Z.ltb_lt in E; lia|].
  rewrite E. now rewrite Nat2Z.id.
Qed.

Lemma getitem_last {A : Type} (l : list A) :
  l <> [] -> exists a, getitem l (-1) = Ok a /\ In a l /\
                       nth_error l (List.length l - 1) = Some a.
Proof.
  intros Hne. unfold getitem. cbn [Z.ltb Z.compare].
  destruct l as [|x l]; [contradiction|].
  set (n := List.length (x :: l)).
  assert (Hn : (1 <= n)%nat) by (unfold n; simpl; lia).
  destruct (Z.of_nat n + -1 <? 0)%Z eqn:E; [apply Z.ltb_lt in E; lia|].
  replace (Z.to_nat (Z.of_nat n + -1)) with (n - 1)%nat by lia.
  destruct (nth_error (x :: l) (n - 1)) as [a|] eqn:Hnth.
  - exists a. split; [reflexivity|].
    split; [eapply nth_error_In; eassumption|reflexivity].
  - apply nth_error_None in Hnth. fold n in Hnth. lia.
Qed.

(** ** The accept test of a boundary *)

Lemma inside_accept (w : window) (p : point) (e : edge) :
  is_inside p w = true -> accept e w p = true.
Proof.
  destruct p as [x y]. unfold is_inside. intros H.
  apply andb_true_iff in H. destruct H as [Hx Hy].
  apply andb_true_iff in Hx. apply andb_true_iff in Hy.
  destruct e; simpl; tauto.
Qed.


Lemma disagree_delta (w : window) (e : edge) (p0 p1 : point) :
  accept e w p1 <> accept e w p0 ->
  ~ coord p1 (axis e) - coord p0 (axis e) == 0.
Proof.
  intros Hd Hz. apply Hd. clear Hd.
  destruct e; simpl in *;
    match goal with
    | |- Qle_bool ?a ?b = Qle_bool ?c ?d =>
        destruct (Qle_bool a b) eqn:E1; destruct (Qle_bool c d) eqn:E0
    end; try reflexivity; bools; lra.
Qed.

Lemma disagree_range (w : window) (e : edge) (p0 p1 : point) :
  accept e w p1 <> accept e w p0 ->
  0 <= (boundary e w - coord p0 (axis e))
       / (coord p1 (axis e) - coord p0 (axis e)) <= 1.
Proof.
  intros Hd.
  destruct e; simpl in *;
    match type of Hd with
    | Qle_bool ?a ?b <> Qle_bool ?c ?d =>
        destruct (Qle_bool a b) eqn:E1; destruct (Qle_bool c d) eqn:E0
    end; try congruence; bools;
    solve [apply ratio_range_pos; lra | apply ratio_range_neg; lra].
Qed.

(** ** One iteration of clip_edge *)

Lemma accept_between (w : window) (e : edge) (p0 p1 : point) (t : Q) :
  0 <= t -> t <= 1 ->
  accept e w p0 = true -> accept e w p1 = true ->
  accept e w (intersection p0 p1 t) = true.
Proof.
  intros H0 H1 A0 A1.
  destruct e; simpl in *; bools; apply Qle_bool_iff;
    solve [apply between_ge; assumption | apply between_le; assumption].
Qed.

Lemma accept_crossing (w : window) (e : edge) (p0 p1 : point) :
  ~ coord p1 (axis e) - coord p0 (axis e) == 0 ->
  coord (intersection p0 p1
           ((boundary e w - coord p0 (axis e))
            / (coord p1 (axis e) - coord p0 (axis e)))) (axis e)
  == boundary e w.
Proof.
  intros Hd. destruct e; simpl in *; apply cross_exact; exact Hd.
Qed.

Lemma accept_on_boundary (w : window) (e : edge) (p : point) :
  coord p (axis e) == boundary e w -> accept e w p = true.
Proof.
  intros H. destruct e; simpl in *; apply Qle_bool_iff; lra.
Qed.

(** What [visit] returns, by the accept tests of [p0] and [p1]. *)
Lemma visit_cases (w : window) (e : edge) (p0 p1 : point) :
  let t := (boundary e w - coord p0 (axis e))
           / (coord p1 (axis e) - coord p0 (axis e)) in
  visit w e p0 p1 =
  Ok (Append
        (match accept e w p1, accept e w p0 with
         | true, false => [intersection p0 p1 t; p1]
         | true, true => [p1]
         | false, true => [intersection p0 p1 t]
         | false, false => []
         end)).
Proof.
  intros t. unfold visit.
  destruct (accept e w p1) eqn:A1; destruct (accept e w p0) eqn:A0;
    simpl; try reflexivity.
  - assert (Hd : accept e w p1 <> accept e w p0) by congruence.
    apply disagree_delta in Hd.
    rewrite (qdiv_ok _ _ Hd). simpl. now rewrite (Qeq_bool_no _ _ Hd).
  - assert (Hd : accept e w p1 <> accept e w p0) by congruence.
    apply disagree_delta in Hd.
    rewrite (qdiv_ok _ _ Hd). simpl. now rewrite (Qeq_bool_no _ _ Hd).
Qed.

(** The loop of [clip_edge] never raises; what it appends is accepted by the
    boundary of the stage, and by every boundary that accepts all the
    vertices of the stage's input. *)
Lemma clip_loop_spec (w : window) (e : edge) (rest : polygon) :
  forall (acc : polygon) (p0 : point),
  exists out,
    clip_loop w e acc p0 rest = Ok (acc ++ out) /\
    Forall (fun p => accept e w p = true) out /\
    (forall e', accept e' w p0 = true ->
                Forall (fun p => accept e' w p = true) rest ->
                Forall (fun p => accept e' w p = true) out).
Proof.
  induction rest as [|p1 rest IH]; intros acc p0.
  - exists []. simpl. rewrite app_nil_r. repeat split; constructor.
  - simpl. rewrite visit_cases. simpl.
    set (t := (boundary e w - coord p0 (axis e))
              / (coord p1 (axis e) - coord p0 (axis e))).
    set (pts := match accept e w p1, accept e w p0 with
                | true, false => [intersection p0 p1 t; p1]
                | true, true => [p1]
                | false, true => [intersection p0 p1 t]
                | false, false => []
                end).
    destruct (IH (acc ++ pts) p1) as (out & Hrun & Hacc & Hkeep).
    exists (pts ++ out). rewrite Hrun, app_assoc.
    split; [reflexivity|].
    assert (Hcross : accept e w p1 <> accept e w p0 ->
                     accept e w (intersection p0 p1 t) = true).
    { intros Hd. apply accept_on_boundary. apply accept_crossing.
      now apply disagree_delta with (w := w). }
    assert (Hrange : accept e w p1 <> accept e w p0 -> 0 <= t <= 1)
      by apply disagree_range.
    split.
    + apply Forall_app. split; [|assumption]. unfold pts.
      destruct (accept e w p1) eqn:A1; destruct (accept e w p0) eqn:A0;
        repeat constructor; try assumption; apply Hcross; congruence.
    + intros e' B0 Brest. inversion Brest as [|? ? B1 Brest']; subst.
      apply Forall_app. split; [|now apply Hkeep]. unfold pts.
      destruct (accept e w p1) eqn:A1; destruct (accept e w p0) eqn:A0;
        repeat constructor; try assumption;
        apply accept_between; try assumption; apply Hrange; congruence.
Qed.

Lemma clip_edge_spec (w : window) (e : edge) (poly : polygon) :
  poly <> [] ->
  exists out,
    clip_edge w poly e = Ok out /\
    Forall (fun p => accept e w p = true) out /\
    (forall e', Forall (fun p => accept e' w p = true) poly ->
                Forall (fun p => accept e' w p = true) out).
Proof.
  intros Hne. unfold clip_edge.
  destruct (getitem_last poly Hne) as (p0 & Hget & Hin & _).
  rewrite Hget. simpl.
  destruct (clip_loop_spec w e poly [] p0) as (out & Hrun & Hacc & Hkeep).
  exists out. split; [exact Hrun|]. split; [exact Hacc|].
  intros e' Hall. apply Hkeep; [|exact Hall].
  rewrite Forall_forall in Hall. now apply Hall.
Qed.

Lemma clip_edge_empty (w : window) (e : edge) :
  clip_edge w [] e = Raise IndexError.
Proof. reflexivity. Qed.

(** A stage whose input is accepted throughout returns its input. *)
Lemma clip_loop_accepted (w : window) (e : edge) (rest : polygon) :
  forall (acc : polygon) (p0 : point),
  accept e w p0 = true ->
  Forall (fun p => accept e w p = true) rest ->
  clip_loop w e acc p0 rest = Ok (acc ++ rest).
Proof.
  induction rest as [|p1 rest IH]; intros acc p0 A0 Hall.
  - simpl. now rewrite app_nil_r.
  - inversion Hall as [|? ? A1 Hall']; subst.
    simpl. rewrite visit_cases, A1, A0. simpl.
    rewrite (IH _ _ A1 Hall'). now rewrite <- app_assoc.
Qed.

Lemma clip_edge_accepted (w : window) (e : edge) (poly : polygon) :
  poly <> [] ->
  Forall (fun p => accept e w p = true) poly ->
  clip_edge w poly e = Ok poly.
Proof.
  intros Hne Hall. unfold clip_edge.
  destruct (getitem_last poly Hne) as (p0 & Hget & Hin & _).
  rewrite Hget. simpl.
  apply (clip_loop_accepted w e poly [] p0); [|exact Hall].
  rewrite Forall_forall in Hall. now apply Hall.
Qed.

Lemma inside_accept_all (w : window) (poly : polygon) (e : edge) :
  Forall (fun p => is_inside p w = true) poly ->
  Forall (fun p => accept e w p = true) poly.
Proof.
  apply Forall_impl. intros p. apply inside_accept.
Qed.

Lemma clip_inside_identity (w : window) (poly : polygon) :
  poly <> [] ->
  Forall (fun p => is_inside p w = true) poly ->
  sutherland_hodgman_clip poly w = Ok poly.
Proof.
  intros Hne Hall. unfold sutherland_hodgman_clip.
  rewrite (clip_edge_accepted w Left poly Hne (inside_accept_all _ _ _ Hall)).
  simpl.
  rewrite (clip_edge_accepted w Bottom poly Hne (inside_accept_all _ _ _ Hall)).
  simpl.
  rewrite (clip_edge_accepted w Right poly Hne (inside_accept_all _ _ _ Hall)).
  simpl.
  apply (clip_edge_accepted w Top poly Hne (inside_accept_all _ _ _ Hall)).
Qed.

(** ** The four stages *)


Lemma clip_edge_raise (w : window) (e : edge) (poly : polygon) (ex : exn) :
  clip_edge w poly e = Raise ex -> poly = [] /\ ex = IndexError.
Proof.
  intros Hrun. destruct poly as [|p poly].
  - rewrite clip_edge_empty in Hrun. now injection Hrun as <-.
  - destruct (clip_edge_spec w e (p :: poly)) as (out & Hrun' & _);
      [discriminate|congruence].
Qed.

(** The only exception of the polygon clipper is the [IndexError] of
    [polygon[-1]] on an empty list: it never divides by zero. *)
Lemma clip_polygon_raise (w : window) (poly : polygon) (ex : exn) :
  sutherland_hodgman_clip poly w = Raise ex -> ex = IndexError.
Proof.
  unfold sutherland_hodgman_clip. intros Hrun.
  destruct (clip_edge w poly Left) as [a1|e1] eqn:E1; simpl in Hrun;
    [|injection Hrun as <-; now apply clip_edge_raise in E1].
  destruct (clip_edge w a1 Bottom) as [a2|e2] eqn:E2; simpl in Hrun;
    [|injection Hrun as <-; now apply clip_edge_raise in E2].
  destruct (clip_edge w a2 Right) as [a3|e3] eqn:E3; simpl in Hrun;
    [|injection Hrun as <-; now apply clip_edge_raise in E3].
  now apply clip_edge_raise in Hrun.
Qed.


(** A polygon that lies to the left of the window is emptied by the first
    stage, and the second stage then fails on [polygon[-1]]. *)
Lemma clip_loop_rejected (w : window) (e : edge) (rest : polygon) :
  forall (acc : polygon) (p0 : point),
  accept e w p0 = false ->
  Forall (fun p => accept e w p = false) rest ->
  clip_loop w e acc p0 rest = Ok acc.
Proof.
  induction rest as [|p1 rest IH]; intros acc p0 A0 Hall.
  - reflexivity.
  - inversion Hall as [|? ? A1 Hall']; subst.
    simpl. rewrite visit_cases, A1, A0. simpl.
    rewrite app_nil_r. now apply IH.
Qed.

Lemma clip_polygon_left_of_window (w : window) (poly : polygon) :
  poly <> [] ->
  Forall (fun p => fst p < Xmin w) poly ->
  sutherland_hodgman_clip poly w = Raise IndexError.
Proof.
  intros Hne Hall.
  assert (Hrej : Forall (fun p => accept Left w p = false) poly).
  { eapply Forall_impl; [|exact Hall]. intros p Hp. simpl.
    destruct (Qle_bool (Xmin w) (fst p)) eqn:E; [|reflexivity].
    apply Qle_bool_true in E. cbv beta in Hp. lra. }
  unfold sutherland_hodgman_clip, clip_edge at 1.
  destruct (getitem_last poly Hne) as (p0 & Hget & Hin & _).
  rewrite Hget. simpl.
  rewrite (clip_loop_rejected w Left poly [] p0); [reflexivity| |exact Hrej].
  rewrite Forall_forall in Hrej. now apply Hrej.
Qed.

(** ** sorted *)

Lemma insert_perm (x : Q) (l : list Q) : Permutation (insert x l) (x :: l).
Proof.
  induction l as [|y l IH]; simpl.
  - reflexivity.
  - destruct (Qle_bool x y).
    + reflexivity.
    + rewrite IH. apply perm_swap.
Qed.

Lemma sorted_perm (l : list Q) : Permutation (sorted l) l.
Proof.
  induction l as [|x l IH]; simpl.
  - reflexivity.
  - rewrite insert_perm. now constructor.
Qed.

Lemma insert_sorted (x : Q) (l : list Q) :
  StronglySorted Qle l -> StronglySorted Qle (insert x l).
Proof.
  induction 1 as [|y l Hs IH Hall]; simpl.
  - repeat constructor.
  - destruct (Qle_bool x y) eqn:E.
    + apply Qle_bool_true in E. constructor.
      * now constructor.
      * constructor; [exact E|].
        eapply Forall_impl; [|exact Hall].
        intros z Hz. now apply Qle_trans with y.
    + apply Qle_bool_false in E. constructor; [exact IH|].
      apply (Permutation_Forall (Permutation_sym (insert_perm x l))).
      constructor; [lra|exact Hall].
Qed.

Lemma sorted_sorted (l : list Q) : StronglySorted Qle (sorted l).
Proof.
  induction l as [|x l IH]; simpl.
  - constructor.
  - now apply insert_sorted.
Qed.

Lemma sorted_length (l : list Q) : List.length (sorted l) = List.length l.
Proof. apply Permutation_length, sorted_perm. Qed.

(** The first element of a sorted list is a least one, the last a greatest
    one. *)
Lemma sorted_head_least (t : Q) (rest : list Q) :
  StronglySorted Qle (t :: rest) -> Forall (fun u => t <= u) (t :: rest).
Proof.
  intros Hs. inversion Hs; subst. constructor; [lra|assumption].
Qed.

Lemma sorted_last_greatest (l : list Q) (t : Q) :
  StronglySorted Qle l ->
  nth_error l (List.length l - 1) = Some t ->
  Forall (fun u => u <= t) l.
Proof.
  induction 1 as [|y l Hs IH Hall]; intros Hnth.
  - constructor.
  - destruct l as [|z l'].
    + simpl in Hnth. injection Hnth as <-. repeat constructor. lra.
    + assert (Hnth' : nth_error (z :: l') (List.length (z :: l') - 1) = Some t).
      { simpl in *. now rewrite Nat.sub_0_r in *. }
      constructor; [|now apply IH].
      apply nth_error_In in Hnth'. rewrite Forall_forall in Hall.
      now apply Hall.
Qed.

(** ** Crossing parameters *)

Lemma compute_t_candidate (b s d : Q) : compute_t b s d = Ok (candidate b s d).
Proof.
  unfold compute_t, candidate.
  destruct (Qeq_bool d 0) eqn:E; [reflexivity|].
  rewrite qdiv_ok by now apply Qeq_bool_false.
  simpl. now destruct (_ && _).
Qed.

Lemma candidate_some (b s d t : Q) :
  candidate b s d = Some t <->
  ~ d == 0 /\ t = (b - s) / d /\ 0 <= t <= 1.
Proof.
  unfold candidate. split.
  - destruct (Qeq_bool d 0) eqn:E; [discriminate|].
    destruct (Qle_bool 0 _ && Qle_bool _ 1) eqn:R; [|discriminate].
    intros [= <-]. bools. tauto.
  - intros (Hd & -> & H0 & H1).
    rewrite (Qeq_bool_no _ _ Hd).
    apply Qle_bool_iff in H0, H1. now rewrite H0, H1.
Qed.

Lemma In_append_t (t : Q) (l : list Q) (o : option Q) :
  In t (append_t l o) <-> In t l \/ o = Some t.
Proof.
  destruct o as [v|]; simpl.
  - rewrite in_app_iff. simpl. split.
    + intros [H|[->|[]]]; auto.
    + intros [H|[= ->]]; auto.
  - split; [auto|]. intros [H|H]; [assumption|discriminate].
Qed.

(** The retained parameters are the crossings with a boundary line that lie
    in [[0, 1]]; computing them never raises. *)
Lemma crossings_spec (s : segment) (w : window) :
  exists ts, crossings s w = Ok ts /\
             forall t, In t ts <-> crossing_of s w t /\ 0 <= t <= 1.
Proof.
  destruct s as [[x1 y1] [x2 y2]]. unfold crossings.
  rewrite !compute_t_candidate. simpl.
  eexists. split; [reflexivity|].
  intros t. rewrite !In_append_t, !candidate_some. simpl. tauto.
Qed.

(** ** Walking along a segment up to a crossing

    In one coordinate: the walk starts at [a] on the accepted side of a bound
    and moves by [t * d].  When [t] is at most the parameter of the crossing
    with the bound (if that crossing is retained), the walk stays on the
    accepted side. *)

Lemma first_crossing_ge (a d lo t : Q) :
  lo <= a -> 0 <= t -> t <= 1 ->
  (~ d == 0 -> 0 <= (lo - a) / d <= 1 -> t <= (lo - a) / d) ->
  lo <= a + t * d.
Proof.
  intros Ha H0 H1 Hmin.
  destruct (Qlt_le_dec d 0) as [Hneg|Hpos].
  - assert (E : (lo - a) / d == (a - lo) / (- d)) by (field; lra).
    assert (Htm : t * (- d) <= a - lo).
    { destruct (Qlt_le_dec (- d) (a - lo)) as [Hlt|Hle].
      - assert (t * (- d) <= 1 * (- d)) by (apply Qmult_le_compat_r; lra).
        lra.
      - assert (Hr : 0 <= (a - lo) / (- d) <= 1)
          by (apply ratio_range_pos; lra).
        assert (Ht : t <= (a - lo) / (- d)).
        { rewrite <- E. apply Hmin; [lra|]. now rewrite E. }
        assert (t * (- d) <= (a - lo) / (- d) * (- d))
          by (apply Qmult_le_compat_r; lra).
        assert ((a - lo) / (- d) * (- d) == a - lo) by (field; lra).
        lra. }
    assert (t * d == - (t * (- d))) by ring.
    lra.
  - assert (0 <= t * d) by (apply Qmult_le_0_compat; assumption). lra.
Qed.

Lemma first_crossing_le (a d hi t : Q) :
  a <= hi -> 0 <= t -> t <= 1 ->
  (~ d == 0 -> 0 <= (hi - a) / d <= 1 -> t <= (hi - a) / d) ->
  a + t * d <= hi.
Proof.
  intros Ha H0 H1 Hmin.
  assert (H : - hi <= - a + t * (- d)).
  { apply first_crossing_ge; try lra.
    intros Hd Hr.
    assert (Hd' : ~ d == 0) by lra.
    assert (E : (- hi - - a) / (- d) == (hi - a) / d) by (field; exact Hd').
    rewrite E in *. now apply Hmin. }
  assert (t * (- d) == - (t * d)) by ring.
  lra.
Qed.

(** The same from the other end: the walk ends at [a + d] on the accepted
    side, and [t] is at least the parameter of the crossing. *)
Lemma last_crossing_ge (a d lo t : Q) :
  lo <= a + d -> 0 <= t -> t <= 1 ->
  (~ d == 0 -> 0 <= (lo - a) / d <= 1 -> (lo - a) / d <= t) ->
  lo <= a + t * d.
Proof.
  intros Ha H0 H1 Hmax.
  assert (H : lo <= (a + d) + (1 - t) * (- d)).
  { apply first_crossing_ge; try lra.
    intros Hd Hr.
    assert (Hd' : ~ d == 0) by lra.
    assert (E : (lo - (a + d)) / (- d) == 1 - (lo - a) / d)
      by (field; exact Hd').
    rewrite E in *.
    assert ((lo - a) / d <= t) by (apply Hmax; [exact Hd'|lra]).
    lra. }
  assert ((a + d) + (1 - t) * (- d) == a + t * d) by ring.
  lra.
Qed.

Lemma last_crossing_le (a d hi t : Q) :
  a + d <= hi -> 0 <= t -> t <= 1 ->
  (~ d == 0 -> 0 <= (hi - a) / d <= 1 -> (hi - a) / d <= t) ->
  a + t * d <= hi.
Proof.
  intros Ha H0 H1 Hmax.
  assert (H : (a + d) + (1 - t) * (- d) <= hi).
  { apply first_crossing_le; try lra.
    intros Hd Hr.
    assert (Hd' : ~ d == 0) by lra.
    assert (E : (hi - (a + d)) / (- d) == 1 - (hi - a) / d)
      by (field; exact Hd').
    rewrite E in *.
    assert ((hi - a) / d <= t) by (apply Hmax; [exact Hd'|lra]).
    lra. }
  assert ((a + d) + (1 - t) * (- d) == a + t * d) by ring.
  lra.
Qed.

(** ** The inside test *)

Lemma is_inside_iff (p : point) (w : window) :
  is_inside p w = true <-> inside p w.
Proof.
  destruct p as [x y]. unfold is_inside, inside. simpl.
  rewrite !andb_true_iff, !Qle_bool_iff. tauto.
Qed.

Lemma is_inside_false (p : point) (w : window) :
  is_inside p w = false ->
  fst p < Xmin w \/ Xmax w < fst p \/ snd p < Ymin w \/ Ymax w < snd p.
Proof.
  destruct p as [x y]. unfold is_inside. simpl. intros H.
  destruct (Qle_bool (Xmin w) x) eqn:E1; [|bools; auto].
  destruct (Qle_bool x (Xmax w)) eqn:E2; [|bools; auto].
  destruct (Qle_bool (Ymin w) y) eqn:E3; [|bools; auto].
  destruct (Qle_bool y (Ymax w)) eqn:E4; [discriminate|bools; auto].
Qed.

(** ** The branches of cohen_sutherland_clip *)

Lemma sorted_nonempty (ts : list Q) (u : Q) :
  In u ts ->
  exists t rest, sorted ts = t :: rest /\ In t ts /\
                 Forall (fun v => t <= v) ts.
Proof.
  intros Hu.
  pose proof (sorted_perm ts) as Hp. pose proof (sorted_sorted ts) as Hs.
  destruct (sorted ts) as [|t rest].
  - apply Permutation_nil in Hp. subst. contradiction.
  - exists t, rest. split; [reflexivity|]. split.
    + apply (Permutation_in _ Hp). now left.
    + apply (Permutation_Forall Hp). now apply sorted_head_least.
Qed.

Lemma sorted_last (ts : list Q) (u : Q) :
  In u ts ->
  exists t, getitem (sorted ts) (-1) = Ok t /\ In t ts /\
            Forall (fun v => v <= t) ts.
Proof.
  intros Hu.
  pose proof (sorted_perm ts) as Hp. pose proof (sorted_sorted ts) as Hs.
  assert (Hne : sorted ts <> []).
  { intros E. rewrite E in Hp. apply Permutation_nil in Hp.
    subst. contradiction. }
  destruct (getitem_last (sorted ts) Hne) as (t & Hget & Hin & Hnth).
  exists t. split; [exact Hget|]. split.
  - now apply (Permutation_in _ Hp).
  - apply (Permutation_Forall Hp). now apply sorted_last_greatest.
Qed.

(** A segment that leaves the window has a retained crossing. *)
Lemma leaving_has_crossing (x1 y1 x2 y2 : Q) (w : window) (ts : list Q) :
  (forall t, In t ts <->
             crossing_of ((x1, y1), (x2, y2)) w t /\ 0 <= t <= 1) ->
  (inside (x1, y1) w /\ ~ inside (x2, y2) w) \/
  (inside (x2, y2) w /\ ~ inside (x1, y1) w) ->
  exists u, In u ts.
Proof.
  intros Hin Hcase.
  unfold inside in Hcase. simpl in Hcase.
  destruct (Qlt_le_dec x1 (Xmin w)); destruct (Qlt_le_dec (Xmax w) x1);
  destruct (Qlt_le_dec y1 (Ymin w)); destruct (Qlt_le_dec (Ymax w) y1);
  destruct (Qlt_le_dec x2 (Xmin w)); destruct (Qlt_le_dec (Xmax w) x2);
  destruct (Qlt_le_dec y2 (Ymin w)); destruct (Qlt_le_dec (Ymax w) y2);
  try (exfalso; lra);
  first
    [ exists ((Xmin w - x1) / (x2 - x1)); apply Hin; split;
      [left; split; [lra|now left]
      |solve [apply ratio_range_pos; lra | apply ratio_range_neg; lra]]
    | exists ((Xmax w - x1) / (x2 - x1)); apply Hin; split;
      [left; split; [lra|now right]
      |solve [apply ratio_range_pos; lra | apply ratio_range_neg; lra]]
    | exists ((Ymin w - y1) / (y2 - y1)); apply Hin; split;
      [right; split; [lra|now left]
      |solve [apply ratio_range_pos; lra | apply ratio_range_neg; lra]]
    | exists ((Ymax w - y1) / (y2 - y1)); apply Hin; split;
      [right; split; [lra|now right]
      |solve [apply ratio_range_pos; lra | apply ratio_range_neg; lra]] ].
Qed.

Lemma clip_unfold (p1 p2 : point) (w : window) (ts : list Q) :
  crossings (p1, p2) w = Ok ts ->
  cohen_sutherland_clip (p1, p2) w =
  let s := (p1, p2) in
  let t_values := sorted ts in
  if is_inside p1 w && is_inside p2 w then Ok (Some (p1, p2))
  else if is_inside p1 w then
    t <- getitem t_values 0 ;;
    Ok (Some (p1, point_at s t))
  else if is_inside p2 w then
    t <- getitem t_values (-1) ;;
    Ok (Some (point_at s t, p2))
  else if (2 <=? List.length t_values)%nat then
    t1 <- getitem t_values 0 ;;
    t2 <- getitem t_values 1 ;;
    Ok (Some (point_at s t1, point_at s t2))
  else Ok None.
Proof.
  intros Hts. unfold cohen_sutherland_clip. now rewrite Hts.
Qed.

(** Only [p1] inside: the result is [p1] and the point at the least retained
    parameter, and that point is inside the window. *)
Lemma clip_p1_inside (p1 p2 : point) (w : window) :
  is_inside p1 w = true -> is_inside p2 w = false ->
  exists ts t,
    crossings (p1, p2) w = Ok ts /\ In t ts /\ Forall (fun v => t <= v) ts /\
    cohen_sutherland_clip (p1, p2) w
      = Ok (Some (p1, point_at (p1, p2) t)) /\
    is_inside (point_at (p1, p2) t) w = true.
Proof.
  intros I1 I2.
  destruct (crossings_spec (p1, p2) w) as (ts & Hts & Hin).
  destruct p1 as [x1 y1], p2 as [x2 y2].
  assert (H1 : inside (x1, y1) w) by now apply is_inside_iff.
  assert (H2 : ~ inside (x2, y2) w).
  { intros H. apply is_inside_iff in H. congruence. }
  destruct (leaving_has_crossing x1 y1 x2 y2 w ts Hin) as [u Hu]; [tauto|].
  destruct (sorted_nonempty ts u Hu) as (t & rest & Hsort & Ht & Hleast).
  exists ts, t. repeat (split; [assumption|]).
  assert (Hrange : 0 <= t <= 1) by now apply Hin.
  split.
  - rewrite (clip_unfold _ _ _ _ Hts). cbv zeta.
    rewrite I1, I2, Hsort. reflexivity.
  - apply is_inside_iff. unfold inside in *. simpl in *.
    rewrite Forall_forall in Hleast.
    repeat split;
      (apply first_crossing_ge || apply first_crossing_le);
      try tauto; intros Hd Hr; apply Hleast, Hin; (split; [|exact Hr]);
      [left; split; [exact Hd|now left]
      |left; split; [exact Hd|now right]
      |right; split; [exact Hd|now left]
      |right; split; [exact Hd|now right]].
Qed.

(** Only [p2] inside: the result is the point at the greatest retained
    parameter and [p2], and that point is inside the window. *)
Lemma clip_p2_inside (p1 p2 : point) (w : window) :
  is_inside p1 w = false -> is_inside p2 w = true ->
  exists ts t,
    crossings (p1, p2) w = Ok ts /\ In t ts /\ Forall (fun v => v <= t) ts /\
    cohen_sutherland_clip (p1, p2) w
      = Ok (Some (point_at (p1, p2) t, p2)) /\
    is_inside (point_at (p1, p2) t) w = true.
Proof.
  intros I1 I2.
  destruct (crossings_spec (p1, p2) w) as (ts & Hts & Hin).
  destruct p1 as [x1 y1], p2 as [x2 y2].
  assert (H2 : inside (x2, y2) w) by now apply is_inside_iff.
  assert (H1 : ~ inside (x1, y1) w).
  { intros H. apply is_inside_iff in H. congruence. }
  destruct (leaving_has_crossing x1 y1 x2 y2 w ts Hin) as [u Hu]; [tauto|].
  destruct (sorted_last ts u Hu) as (t & Hget & Ht & Hgreatest).
  exists ts, t. repeat (split; [assumption|]).
  assert (Hrange : 0 <= t <= 1) by now apply Hin.
  split.
  - rewrite (clip_unfold _ _ _ _ Hts). cbv zeta.
    rewrite I1, I2. simpl andb. cbv iota. rewrite Hget. reflexivity.
  - apply is_inside_iff. unfold inside in *. simpl in *.
    rewrite Forall_forall in Hgreatest.
    repeat split;
      (apply last_crossing_ge || apply last_crossing_le);
      try tauto; try lra; intros Hd Hr; apply Hgreatest, Hin;
      (split; [|exact Hr]);
      [left; split; [exact Hd|now left]
      |left; split; [exact Hd|now right]
      |right; split; [exact Hd|now left]
      |right; split; [exact Hd|now right]].
Qed.

(** Neither endpoint inside and at least two retained parameters: the
    result is made of the points at the first two parameters of the sorted
    list. *)
Lemma sorted_two (ts : list Q) :
  (2 <= List.length ts)%nat ->
  exists t1 t2 rest,
    sorted ts = t1 :: t2 :: rest /\
    Permutation (t1 :: t2 :: rest) ts /\
    t1 <= t2 /\ Forall (fun v => t2 <= v) rest.
Proof.
  intros Hlen.
  pose proof (sorted_perm ts) as Hp. pose proof (sorted_sorted ts) as Hs.
  pose proof (sorted_length ts) as Hl.
  destruct (sorted ts) as [|t1 [|t2 rest]]; simpl in Hl; try lia.
  exists t1, t2, rest. split; [reflexivity|]. split; [exact Hp|].
  inversion Hs as [|? ? Hs' Hall1]; subst.
  inversion Hs' as [|? ? _ Hall2]; subst.
  inversion Hall1; subst. now split.
Qed.



(** A segment inside the window is returned as it is. *)
Lemma clip_both_inside (s : segment) (w : window) :
  is_inside (fst s) w = true -> is_inside (snd s) w = true ->
  cohen_sutherland_clip s w = Ok (Some s).
Proof.
  destruct s as [p1 p2]. cbn [fst snd]. intros I1 I2.
  destruct (crossings_spec (p1, p2) w) as (ts & Hts & _).
  rewrite (clip_unfold _ _ _ _ Hts). cbv zeta.
  now rewrite I1, I2.
Qed.

(** ** The lines that parse_input_data reads *)

Lemma getitem_app_l {A : Type} (pre ext : list A) (i : Z) :
  (0 <= i < Z.of_nat (List.length pre))%Z ->
  getitem (pre ++ ext) i = getitem pre i.
Proof.
  intros Hi. rewrite <- (Z2Nat.id i) by lia. rewrite !getitem_nat.
  rewrite nth_error_app1 by lia. reflexivity.
Qed.

Lemma getitem_app_r {A : Type} (pre rest : list A) (k : Z) :
  (0 <= k)%Z ->
  getitem (pre ++ rest) (Z.of_nat (List.length pre) + k) = getitem rest k.
Proof.
  intros Hk. rewrite <- (Z2Nat.id k) at 2 by lia.
  replace (Z.of_nat (List.length pre) + k)%Z
    with (Z.of_nat (List.length pre + Z.to_nat k)) by lia.
  rewrite !getitem_nat. rewrite nth_error_app2 by lia.
  now replace (List.length pre + Z.to_nat k - List.length pre)%nat
    with (Z.to_nat k) by lia.
Qed.

Section ParseFacts.

Variable int_of_string : string -> option Z.
Variable float_of_string : string -> option Q.

Let parse_segments' := parse_segments float_of_string.
Let parse_polygon' := parse_polygon float_of_string.
Let parse' := parse_input_data int_of_string float_of_string.

(** The loop over the segment lines reads the lines [i .. i + count - 1]
    only. *)
Lemma parse_segments_app (pre ext : list string) (count : nat) :
  forall (i : Z) (segments : list segment),
  (0 <= i)%Z ->
  (i + Z.of_nat count <= Z.of_nat (List.length pre))%Z ->
  parse_segments' (pre ++ ext) i count segments
  = parse_segments' pre i count segments.
Proof.
  unfold parse_segments'.
  induction count as [|count IH]; intros i segments Hi Hlen.
  - reflexivity.
  - cbn [parse_segments]. rewrite getitem_app_l by lia.
    destruct (getitem pre i) as [raw|ex]; [|reflexivity].
    cbn [bind]. destruct (strip raw); [reflexivity|].
    destruct (floats float_of_string _) as [coords|ex]; [|reflexivity].
    cbn [bind].
    destruct coords as [|x1 [|y1 [|x2 [|y2 [|]]]]]; try reflexivity.
    apply IH; lia.
Qed.

Lemma parse_polygon_app (pre ext : list string) (n : Z) :
  (0 <= n + 2 < Z.of_nat (List.length pre))%Z ->
  parse_polygon' (pre ++ ext) n = parse_polygon' pre n.
Proof.
  intros Hn. unfold parse_polygon', parse_polygon.
  rewrite length_app, Nat2Z.inj_add.
  destruct (Z.gtb_spec (Z.of_nat (List.length pre)
                        + Z.of_nat (List.length ext)) (n + 2)); [|lia].
  destruct (Z.gtb_spec (Z.of_nat (List.length pre)) (n + 2)); [|lia].
  now rewrite getitem_app_l by lia.
Qed.

(** The lines after line [n + 2] are not read. *)
Lemma parse_app (pre ext : list string) (line0 : string) (n : Z) :
  nth_error pre 0 = Some line0 ->
  int_of_string line0 = Some n ->
  (0 <= n)%Z ->
  Z.of_nat (List.length pre) = (n + 3)%Z ->
  parse' (pre ++ ext) = parse' pre.
Proof.
  intros H0 Hint Hn Hlen. unfold parse', parse_input_data.
  destruct pre as [|l0 pre']; [discriminate|].
  simpl in H0. injection H0 as ->.
  change ((line0 :: pre') ++ ext) with (line0 :: (pre' ++ ext)).
  cbv iota. rewrite !getitem_0. cbn [bind].
  unfold py_int. rewrite Hint. cbn [bind].
  change (line0 :: (pre' ++ ext)) with ((line0 :: pre') ++ ext).
  fold parse_segments'.
  rewrite parse_segments_app by lia.
  destruct (parse_segments' _ _ _ _) as [segments|ex]; [|reflexivity].
  cbn [bind]. rewrite length_app, Nat2Z.inj_add.
  destruct (Z.ltb_spec (Z.of_nat (List.length (line0 :: pre'))
                        + Z.of_nat (List.length ext)) (n + 2)); [lia|].
  destruct (Z.ltb_spec (Z.of_nat (List.length (line0 :: pre'))) (n + 2));
    [lia|].
  rewrite getitem_app_l by lia.
  destruct (getitem _ (n + 1)) as [wline|ex]; [|reflexivity].
  cbn [bind].
  destruct (floats float_of_string _) as [cw|ex]; [|reflexivity].
  cbn [bind].
  destruct cw as [|a [|b [|c [|d [|]]]]]; try reflexivity.
  fold parse_polygon'. now rewrite parse_polygon_app by lia.
Qed.

(** The window line is read by [float] and measured, nothing more: another
    line of four numbers in its place changes the window that is returned
    and nothing else. *)
Lemma parse_window_line (pre post : list string) (wl wl' line0 : string)
    (n : Z) (segments : list segment) (w : window) (poly : polygon)
    (a b c d : Q) :
  nth_error pre 0 = Some line0 ->
  int_of_string line0 = Some n ->
  (0 <= n)%Z ->
  Z.of_nat (List.length pre) = (n + 1)%Z ->
  parse' (pre ++ wl :: post) = Ok (segments, w, poly) ->
  floats float_of_string (split wl') = Ok [a; b; c; d] ->
  parse' (pre ++ wl' :: post) = Ok (segments, Window a b c d, poly).
Proof.
  intros H0 Hint Hn Hlen Hrun Hwl'. revert Hrun.
  unfold parse', parse_input_data.
  destruct pre as [|l0 pre']; [discriminate|].
  simpl in H0. injection H0 as ->.
  change ((line0 :: pre') ++ wl :: post)
    with (line0 :: (pre' ++ wl :: post)).
  change ((line0 :: pre') ++ wl' :: post)
    with (line0 :: (pre' ++ wl' :: post)).
  cbv iota. rewrite !getitem_0. cbn [bind].
  unfold py_int. rewrite Hint. cbn [bind].
  change (line0 :: (pre' ++ wl :: post))
    with ((line0 :: pre') ++ wl :: post).
  change (line0 :: (pre' ++ wl' :: post))
    with ((line0 :: pre') ++ wl' :: post).
  fold parse_segments'.
  rewrite !parse_segments_app by lia.
  destruct (parse_segments' _ _ _ _) as [segs|ex]; [|cbn [bind]; discriminate].
  cbn [bind]. rewrite !length_app, !Nat2Z.inj_add.
  cbn [List.length]. rewrite !Nat2Z.inj_succ.
  pose proof Hlen as Hlen'. cbn [List.length] in Hlen'.
  rewrite Nat2Z.inj_succ in Hlen'.
  match goal with
  | |- context [(?len <? n + 2)%Z] =>
      destruct (Z.ltb_spec len (n + 2)); [lia|]
  end.
  replace (n + 1)%Z with (Z.of_nat (List.length (line0 :: pre')) + 0)%Z
    by lia.
  rewrite !getitem_app_r by lia. rewrite !getitem_0. cbn [bind].
  rewrite Hwl'. cbn [bind].
  destruct (floats float_of_string (split wl)) as [cw|ex]; [|cbn [bind]; discriminate].
  cbn [bind].
  destruct cw as [|a0 [|b0 [|c0 [|d0 [|]]]]]; try (cbn [bind]; discriminate).
  assert (Hpoly : parse_polygon float_of_string
                    ((line0 :: pre') ++ wl' :: post) n
                  = parse_polygon float_of_string
                    ((line0 :: pre') ++ wl :: post) n).
  { unfold parse_polygon.
    rewrite !length_app. cbn [List.length].
    replace (n + 2)%Z
      with (Z.of_nat (List.length (line0 :: pre')) + 1)%Z by lia.
    rewrite !getitem_app_r by lia. reflexivity. }
  replace (Z.of_nat (List.length (line0 :: pre')) + 0)%Z with (n + 1)%Z
    by lia.
  rewrite Hpoly.
  destruct (parse_polygon float_of_string ((line0 :: pre') ++ wl :: post) n)
    as [poly'|ex]; [|cbn [bind]; discriminate].
  cbn [bind]. intros [= <- _ <-]. reflexivity.
Qed.

End ParseFacts.

(** * The claims *)

(** ** Segment clipping *)

(** C1.  The claim: a present result of the segment clipper has both
    endpoints inside the closed window.  The program returns, for the
    segment (-4,8)-(4,16) and the window (0,0,10,10), the segment
    (-2,10)-(0,12): neither endpoint of the segment is inside, its line
    crosses the lines y = 10 and x = 0 at the parameters 1/4 and 1/2, and
    the points at these two parameters are returned although both lie
    outside the window. *)
Theorem clip_segment_result_outside_window :
  let w := Window 0 0 10 10 in
  let s : segment := ((-4, 8), (4, 16)) in
  well_formed w /\
  exists r, cohen_sutherland_clip s w = Ok (Some r) /\
            segment_eq r ((-2, 10), (0, 12)) /\
            is_inside (fst r) w = false /\ is_inside (snd r) w = false.
Proof.
  cbv zeta. split.
  - split; simpl; lra.
  - eexists. split; [vm_compute; reflexivity|].
    repeat split; vm_compute; reflexivity.
Qed.







(** ** Polygon clipping *)

(** C3.  The claim: a polygon outside a disjoint window is clipped to the
    empty sequence.  The program raises [IndexError] for the triangle
    (-5,1), (-3,1), (-4,3) and the window (0,0,10,10): the stage of the left
    boundary empties the polygon, and the stage of the bottom boundary reads
    [polygon[-1]] of the empty list. *)
Theorem clip_polygon_left_of_window_raises :
  let w := Window 0 0 10 10 in
  let poly : polygon := [(-5, 1); (-3, 1); (-4, 3)] in
  well_formed w /\ poly <> [] /\
  Forall (fun p => is_inside p w = false) poly /\
  Forall (fun p => fst p < Xmin w) poly /\
  clip_edge w poly Left = Ok [] /\
  sutherland_hodgman_clip poly w = Raise IndexError.
Proof.
  cbv zeta. split; [split; simpl; lra|].
  split; [discriminate|].
  split; [repeat constructor|].
  split; [repeat constructor; simpl; lra|].
  split; vm_compute; reflexivity.
Qed.

(** C4.  The claim: the clippers never raise on well-formed input.  The
    segment clipper never raises and neither clipper divides by zero (the
    lemmas [cohen_sutherland_clip_total] and [clip_polygon_raise]), but the
    polygon clipper raises [IndexError] for the triangle (2,-5), (8,-5),
    (5,-2) below the window (0,0,10,10): the stage of the bottom boundary
    empties the polygon and the stage of the right boundary reads
    [polygon[-1]] of the empty list. *)
Theorem clip_polygon_below_window_raises :
  let w := Window 0 0 10 10 in
  let poly : polygon := [(2, -5); (8, -5); (5, -2)] in
  well_formed w /\ poly <> [] /\
  clip_edge w poly Left = Ok poly /\
  clip_edge w poly Bottom = Ok [] /\
  clip_edge w [] Right = Raise IndexError /\
  sutherland_hodgman_clip poly w = Raise IndexError.
Proof.
  cbv zeta. split; [split; simpl; lra|].
  split; [discriminate|].
  repeat split; vm_compute; reflexivity.
Qed.

(** C6.  A polygon all of whose vertices pass the closed inside test is
    returned as it is: the same points in the same order.  This holds for
    every window. *)
Theorem clip_polygon_inside_unchanged (w : window) (poly : polygon) :
  poly <> [] ->
  Forall (fun p => is_inside p w = true) poly ->
  sutherland_hodgman_clip poly w = Ok poly.
Proof.
  intros Hne Hall. now apply clip_inside_identity.
Qed.

Lemma clip_polygon_inside_unchanged_witness :
  sutherland_hodgman_clip [(2, 2); (8, 2); (8, 8); (2, 8)] (Window 0 0 10 10)
  = Ok [(2, 2); (8, 2); (8, 8); (2, 8)].
Proof.
  apply (clip_polygon_inside_unchanged (Window 0 0 10 10)
           [(2, 2); (8, 2); (8, 8); (2, 8)]).
  - discriminate.
  - repeat constructor.
Defined.



(** ** Parsing *)

(** C7, as the program has it.  The parser makes no test of the order of the
    window bounds.  The window line is converted by [float] and must have
    four tokens; when an input is parsed, the same input with any other line
    of four numbers as its window line is parsed too, and the window
    returned holds these numbers as they are, whether or not
    [Xmin <= Xmax] and [Ymin <= Ymax]. *)
Theorem parse_window_unchecked
    (int_of_string : string -> option Z)
    (float_of_string : string -> option Q)
    (pre post : list string) (wl wl' line0 : string) (n : Z)
    (segments : list segment) (w : window) (poly : polygon) (a b c d : Q) :
  nth_error pre 0 = Some line0 ->
  int_of_string line0 = Some n ->
  (0 <= n)%Z ->
  Z.of_nat (List.length pre) = (n + 1)%Z ->
  parse_input_data int_of_string float_of_string (pre ++ wl :: post)
  = Ok (segments, w, poly) ->
  floats float_of_string (split wl') = Ok [a; b; c; d] ->
  parse_input_data int_of_string float_of_string (pre ++ wl' :: post)
  = Ok (segments, Window a b c d, poly).
Proof.
  intros. eapply parse_window_line; eassumption.
Qed.

Lemma parse_window_unchecked_witness :
  parse_input_data dec_int dec_float
    (["1"; "1 1 2 2"]%string ++ "10 10 0 0"%string :: ["P2 2 8 2 8 8"]%string)
  = Ok ([((1, 1), (2, 2))], Window 10 10 0 0, [(2, 2); (8, 2); (8, 8)]).
Proof.
  apply (parse_window_unchecked dec_int dec_float
           ["1"; "1 1 2 2"]%string ["P2 2 8 2 8 8"]%string
           "0 0 10 10"%string "10 10 0 0"%string "1"%string 1%Z
           [((1, 1), (2, 2))] (Window 0 0 10 10) [(2, 2); (8, 2); (8, 8)]
           10 10 0 0).
  - reflexivity.
  - reflexivity.
  - lia.
  - reflexivity.
  - vm_compute. reflexivity.
  - vm_compute. reflexivity.
Defined.

(** C7, as the claim states it, fails: the input of the two lines [0] and
    [10 10 0 0] is parsed, and the window returned has [Xmin > Xmax] and
    [Ymin > Ymax]. *)
Lemma parse_accepts_inverted_window :
  parse ["0"; "10 10 0 0"]%string = Ok ([], Window 10 10 0 0, []) /\
  ~ well_formed (Window 10 10 0 0).
Proof.
  split.
  - vm_compute. reflexivity.
  - unfold well_formed. simpl. lra.
Qed.

(** C8.  The claim: when fewer segment lines are supplied than line 0
    declares, the error cites the number of the missing line.  For the
    lines [2] and [1 1 2 2] the program raises [IndexError] at [data[2]],
    whose message names no line.  The message with the line number is
    produced only for a line that is present and blank. *)
Theorem parse_missing_segment_line :
  parse ["2"; "1 1 2 2"]%string = Raise IndexError /\
  parse ["2"; "1 1 2 2"; "  "]%string
  = Raise (ValueError "Missing segment data at line 3.").
Proof.
  split; vm_compute; reflexivity.
Qed.

(** C10.  The lines after line [n + 2] are not read: two inputs with the
    same lines 0 to [n + 2] have the same result, which is the result for
    these lines alone; when these lines are valid, the result is their
    segments, window and polygon, and no error. *)
Theorem parse_ignores_trailing_lines
    (int_of_string : string -> option Z)
    (float_of_string : string -> option Q)
    (pre ext1 ext2 : list string) (line0 : string) (n : Z) :
  nth_error pre 0 = Some line0 ->
  int_of_string line0 = Some n ->
  (0 <= n)%Z ->
  Z.of_nat (List.length pre) = (n + 3)%Z ->
  parse_input_data int_of_string float_of_string (pre ++ ext1)
  = parse_input_data int_of_string float_of_string (pre ++ ext2)
  /\
  parse_input_data int_of_string float_of_string (pre ++ ext1)
  = parse_input_data int_of_string float_of_string pre.
Proof.
  intros H0 Hint Hn Hlen.
  rewrite (parse_app int_of_string float_of_string pre ext1 line0 n)
    by assumption.
  rewrite (parse_app int_of_string float_of_string pre ext2 line0 n)
    by assumption.
  split; reflexivity.
Qed.

Lemma parse_ignores_trailing_lines_witness :
  let pre := ["1"; "1 1 2 2"; "0 0 10 10"; "P2 2 8 2 8 8"]%string in
  parse_input_data dec_int dec_float (pre ++ ["not a line"]%string)
  = parse_input_data dec_int dec_float (pre ++ ["1 2"; "Q"; ""]%string)
  /\
  parse_input_data dec_int dec_float (pre ++ ["not a line"]%string)
  = parse_input_data dec_int dec_float pre.
Proof.
  apply (parse_ignores_trailing_lines dec_int dec_float
           ["1"; "1 1 2 2"; "0 0 10 10"; "P2 2 8 2 8 8"]%string
           ["not a line"]%string ["1 2"; "Q"; ""]%string "1"%string 1%Z).
  - reflexivity.
  - reflexivity.
  - lia.
  - reflexivity.
Defined.

(** * Further properties *)

(** ** The segment clipper *)

Lemma clip_cases (p1 p2 : point) (w : window) :
  exists ts,
    crossings (p1, p2) w = Ok ts /\
    (forall t, In t ts <-> crossing_of (p1, p2) w t /\ 0 <= t <= 1) /\
    match is_inside p1 w, is_inside p2 w with
    | true, true => cohen_sutherland_clip (p1, p2) w = Ok (Some (p1, p2))
    | true, false =>
        exists t, In t ts /\ Forall (fun v => t <= v) ts /\
                  cohen_sutherland_clip (p1, p2) w
                  = Ok (Some (p1, point_at (p1, p2) t)) /\
                  is_inside (point_at (p1, p2) t) w = true
    | false, true =>
        exists t, In t ts /\ Forall (fun v => v <= t) ts /\
                  cohen_sutherland_clip (p1, p2) w
                  = Ok (Some (point_at (p1, p2) t, p2)) /\
                  is_inside (point_at (p1, p2) t) w = true
    | false, false =>
        ((List.length ts < 2)%nat /\
         cohen_sutherland_clip (p1, p2) w = Ok None)
        \/
        (exists t1 t2 rest,
           Permutation (t1 :: t2 :: rest) ts /\ t1 <= t2 /\
           cohen_sutherland_clip (p1, p2) w
           = Ok (Some (point_at (p1, p2) t1, point_at (p1, p2) t2)))
    end.
Proof.
  destruct (crossings_spec (p1, p2) w) as (ts & Hts & Hin).
  exists ts. split; [exact Hts|]. split; [exact Hin|].
  destruct (is_inside p1 w) eqn:I1; destruct (is_inside p2 w) eqn:I2.
  - now apply (clip_both_inside (p1, p2)).
  - destruct (clip_p1_inside p1 p2 w I1 I2) as (ts' & t & Hts' & H).
    rewrite Hts in Hts'. injection Hts' as <-. now exists t.
  - destruct (clip_p2_inside p1 p2 w I1 I2) as (ts' & t & Hts' & H).
    rewrite Hts in Hts'. injection Hts' as <-. now exists t.
  - rewrite (clip_unfold _ _ _ _ Hts). cbv zeta.
    rewrite I1, I2. simpl andb. cbv iota. rewrite sorted_length.
    destruct (Nat.leb_spec 2 (List.length ts)) as [L|L].
    + right.
      destruct (sorted_two ts L) as (t1 & t2 & rest & -> & Hp & H12 & _).
      exists t1, t2, rest. repeat (split; [assumption|]).
      rewrite getitem_0. cbn [bind]. now rewrite getitem_1.
    + left. now split.
Qed.

(** X1.  A segment with both endpoints inside the window is returned as it
    is, for every window. *)
Theorem clip_segment_inside_identity (s : segment) (w : window) :
  is_inside (fst s) w = true ->
  is_inside (snd s) w = true ->
  cohen_sutherland_clip s w = Ok (Some s).
Proof.
  intros I1 I2. now apply clip_both_inside.
Qed.

Lemma clip_segment_inside_identity_witness :
  cohen_sutherland_clip ((1, 1), (9, 4)) (Window 0 0 10 10)
  = Ok (Some ((1, 1), (9, 4))).
Proof.
  apply (clip_segment_inside_identity ((1, 1), (9, 4)) (Window 0 0 10 10));
    vm_compute; reflexivity.
Defined.




(** X4.  The segment clipper answers [None] exactly when neither endpoint
    is inside the window and fewer than two crossing parameters are
    retained. *)
Theorem clip_segment_none_iff (s : segment) (w : window) (ts : list Q) :
  crossings s w = Ok ts ->
  (cohen_sutherland_clip s w = Ok None <->
   is_inside (fst s) w = false /\ is_inside (snd s) w = false /\
   (List.length ts < 2)%nat).
Proof.
  destruct s as [p1 p2]. cbn [fst snd]. intros Hts.
  destruct (clip_cases p1 p2 w) as (ts' & Hts' & _ & H).
  rewrite Hts in Hts'. injection Hts' as <-.
  destruct (is_inside p1 w) eqn:I1; destruct (is_inside p2 w) eqn:I2.
  - rewrite H. split; [discriminate|]. intros (? & _). discriminate.
  - destruct H as (t & _ & _ & -> & _).
    split; [discriminate|]. intros (? & _). discriminate.
  - destruct H as (t & _ & _ & -> & _).
    split; [discriminate|]. intros (_ & ? & _). discriminate.
  - destruct H as [(L & ->)|(t1 & t2 & rest & Hp & _ & ->)].
    + tauto.
    + split; [discriminate|]. intros (_ & _ & L).
      apply Permutation_length in Hp. simpl in Hp. lia.
Qed.

Lemma clip_segment_none_iff_witness :
  cohen_sutherland_clip ((20, 20), (30, 30)) (Window 0 0 10 10) = Ok None <->
  is_inside (fst ((20, 20), (30, 30))) (Window 0 0 10 10) = false /\
  is_inside (snd ((20, 20), (30, 30))) (Window 0 0 10 10) = false /\
  (List.length (@nil Q) < 2)%nat.
Proof.
  apply (clip_segment_none_iff ((20, 20), (30, 30)) (Window 0 0 10 10) []).
  vm_compute. reflexivity.
Defined.

Lemma candidate_degenerate (b x : Q) : candidate b x (x - x) = None.
Proof.
  unfold candidate.
  assert (E : Qeq_bool (x - x) 0 = true) by (apply Qeq_bool_iff; ring).
  now rewrite E.
Qed.

(** X5.  A segment of length zero is a point test: it is returned as it is
    when the point is inside the window and answered with [None] otherwise;
    no crossing parameter is computed, so nothing is divided. *)
Theorem clip_segment_degenerate (p : point) (w : window) :
  crossings (p, p) w = Ok [] /\
  cohen_sutherland_clip (p, p) w
  = Ok (if is_inside p w then Some (p, p) else None).
Proof.
  assert (Hts : crossings (p, p) w = Ok []).
  { destruct p as [x y]. unfold crossings.
    rewrite !compute_t_candidate. cbn [bind].
    now rewrite !candidate_degenerate. }
  split; [exact Hts|].
  rewrite (clip_unfold _ _ _ _ Hts). cbv zeta.
  destruct (is_inside p w); reflexivity.
Qed.





Lemma point_at_eq (s : segment) (t u : Q) :
  t == u -> point_eq (point_at s t) (point_at s u).
Proof.
  intros E. destruct s as [[x1 y1] [x2 y2]].
  split; simpl; now rewrite E.
Qed.







(** ** The polygon clipper *)

Lemma between_lt (a b t hi : Q) :
  0 <= t -> t <= 1 -> a < hi -> b < hi -> a + t * (b - a) < hi.
Proof.
  intros H0 H1 Ha Hb.
  destruct (Qlt_le_dec a b) as [Hab|Hba].
  - assert (a + t * (b - a) <= b) by (apply between_le; lra). lra.
  - assert (a + t * (b - a) <= a) by (apply between_le; lra). lra.
Qed.

Lemma between_gt (a b t lo : Q) :
  0 <= t -> t <= 1 -> lo < a -> lo < b -> lo < a + t * (b - a).
Proof.
  intros H0 H1 Ha Hb.
  destruct (Qlt_le_dec a b) as [Hab|Hba].
  - assert (a <= a + t * (b - a)) by (apply between_ge; lra). lra.
  - assert (b <= a + t * (b - a)) by (apply between_ge; lra). lra.
Qed.

Lemma reject_between (w : window) (e : edge) (p0 p1 : point) (t : Q) :
  0 <= t -> t <= 1 ->
  accept e w p0 = false -> accept e w p1 = false ->
  accept e w (intersection p0 p1 t) = false.
Proof.
  intros H0 H1 A0 A1.
  destruct (accept e w (intersection p0 p1 t)) eqn:A; [|reflexivity].
  exfalso. destruct e; simpl in *; bools.
  - assert (fst p0 + t * (fst p1 - fst p0) < Xmin w)
      by (apply between_lt; assumption). lra.
  - assert (snd p0 + t * (snd p1 - snd p0) < Ymin w)
      by (apply between_lt; assumption). lra.
  - assert (Xmax w < fst p0 + t * (fst p1 - fst p0))
      by (apply between_gt; assumption). lra.
  - assert (Ymax w < snd p0 + t * (snd p1 - snd p0))
      by (apply between_gt; assumption). lra.
Qed.

(** What the loop of a stage appends: every accepted vertex of its input,
    nothing but vertices of its input and points on the boundary line of the
    stage, at most two points for a vertex; a boundary that rejects all the
    input rejects all the output. *)
Lemma clip_loop_more (w : window) (e : edge) (rest : polygon) :
  forall (acc : polygon) (p0 : point),
  exists out,
    clip_loop w e acc p0 rest = Ok (acc ++ out) /\
    (forall v, In v rest -> accept e w v = true -> In v out) /\
    Forall (fun v => In v rest \/ coord v (axis e) == boundary e w) out /\
    (List.length out <= 2 * List.length rest)%nat /\
    (forall e', accept e' w p0 = false ->
                Forall (fun p => accept e' w p = false) rest ->
                Forall (fun p => accept e' w p = false) out).
Proof.
  induction rest as [|p1 rest IH]; intros acc p0.
  - exists []. simpl. rewrite app_nil_r.
    repeat split; try constructor; try tauto; lia.
  - simpl clip_loop. rewrite visit_cases. cbn [bind].
    set (t := (boundary e w - coord p0 (axis e))
              / (coord p1 (axis e) - coord p0 (axis e))).
    set (pts := match accept e w p1, accept e w p0 with
                | true, false => [intersection p0 p1 t; p1]
                | true, true => [p1]
                | false, true => [intersection p0 p1 t]
                | false, false => []
                end).
    destruct (IH (acc ++ pts) p1) as (out & Hrun & Hkeep & Hfrom & Hlen & Hrej).
    exists (pts ++ out). rewrite Hrun, app_assoc.
    split; [reflexivity|].
    assert (Hcross : accept e w p1 <> accept e w p0 ->
                     coord (intersection p0 p1 t) (axis e) == boundary e w).
    { intros Hd. apply accept_crossing.
      now apply disagree_delta with (w := w). }
    assert (Hrange : accept e w p1 <> accept e w p0 -> 0 <= t <= 1)
      by apply disagree_range.
    split; [|split; [|split]].
    + intros v [<-|Hv] Av; apply in_or_app.
      * left. unfold pts. rewrite Av.
        destruct (accept e w p0); simpl; tauto.
      * right. now apply Hkeep.
    + apply Forall_app. split.
      * unfold pts.
        destruct (accept e w p1) eqn:A1; destruct (accept e w p0) eqn:A0;
          repeat (apply Forall_cons || apply Forall_nil);
          first [left; now left | right; apply Hcross; congruence].
      * eapply Forall_impl; [|exact Hfrom].
        intros v [Hv|Hv]; [left; now right|now right].
    + rewrite length_app. cbn [List.length].
      assert (List.length pts <= 2)%nat.
      { unfold pts.
        destruct (accept e w p1); destruct (accept e w p0); simpl; lia. }
      lia.
    + intros e' B0 Brest. inversion Brest as [|? ? B1 Brest']; subst.
      apply Forall_app. split; [|now apply Hrej]. unfold pts.
      destruct (accept e w p1) eqn:A1; destruct (accept e w p0) eqn:A0;
        repeat constructor; try assumption;
        apply reject_between; try assumption; apply Hrange; congruence.
Qed.

Lemma clip_edge_more (w : window) (e : edge) (poly out : polygon) :
  clip_edge w poly e = Ok out ->
  (forall v, In v poly -> accept e w v = true -> In v out) /\
  Forall (fun v => In v poly \/ coord v (axis e) == boundary e w) out /\
  (List.length out <= 2 * List.length poly)%nat /\
  (forall e', Forall (fun p => accept e' w p = false) poly ->
              Forall (fun p => accept e' w p = false) out).
Proof.
  intros Hrun.
  assert (Hne : poly <> []).
  { intros ->. rewrite clip_edge_empty in Hrun. discriminate. }
  unfold clip_edge in Hrun.
  destruct (getitem_last poly Hne) as (p0 & Hget & Hin & _).
  rewrite Hget in Hrun. cbn [bind] in Hrun.
  destruct (clip_loop_more w e poly [] p0)
    as (out' & Hrun' & Hkeep & Hfrom & Hlen & Hrej).
  rewrite Hrun in Hrun'. injection Hrun' as ->.
  repeat (split; [assumption|]).
  intros e' Hall. apply Hrej; [|exact Hall].
  rewrite Forall_forall in Hall. now apply Hall.
Qed.

(** The stages in their order, with the polygon each one returns. *)
Lemma clip_polygon_stages (w : window) (poly out : polygon) :
  sutherland_hodgman_clip poly w = Ok out <->
  exists a1 a2 a3,
    clip_edge w poly Left = Ok a1 /\ clip_edge w a1 Bottom = Ok a2 /\
    clip_edge w a2 Right = Ok a3 /\ clip_edge w a3 Top = Ok out.
Proof.
  unfold sutherland_hodgman_clip. split.
  - intros Hrun.
    destruct (clip_edge w poly Left) as [a1|] eqn:E1; [|discriminate].
    cbn [bind] in Hrun.
    destruct (clip_edge w a1 Bottom) as [a2|] eqn:E2; [|discriminate].
    cbn [bind] in Hrun.
    destruct (clip_edge w a2 Right) as [a3|] eqn:E3; [|discriminate].
    cbn [bind] in Hrun. now exists a1, a2, a3.
  - intros (a1 & a2 & a3 & -> & E2 & E3 & E4). cbn [bind].
    rewrite E2. cbn [bind]. rewrite E3. exact E4.
Qed.

Lemma clip_edge_keeps (w : window) (e : edge) (poly : polygon) (v : point) :
  In v poly -> accept e w v = true ->
  exists out, clip_edge w poly e = Ok out /\ In v out.
Proof.
  intros Hin Hacc.
  assert (Hne : poly <> []) by (intros ->; contradiction).
  destruct (clip_edge_spec w e poly Hne) as (out & Hrun & _).
  exists out. split; [exact Hrun|].
  now apply (clip_edge_more w e poly out Hrun).
Qed.

Lemma clip_polygon_keeps (w : window) (poly : polygon) (v : point) :
  In v poly -> is_inside v w = true ->
  exists out, sutherland_hodgman_clip poly w = Ok out /\ In v out.
Proof.
  intros Hin Hv.
  destruct (clip_edge_keeps w Left poly v Hin (inside_accept _ _ _ Hv))
    as (a1 & E1 & H1).
  destruct (clip_edge_keeps w Bottom a1 v H1 (inside_accept _ _ _ Hv))
    as (a2 & E2 & H2).
  destruct (clip_edge_keeps w Right a2 v H2 (inside_accept _ _ _ Hv))
    as (a3 & E3 & H3).
  destruct (clip_edge_keeps w Top a3 v H3 (inside_accept _ _ _ Hv))
    as (out & E4 & H4).
  exists out. split; [|exact H4].
  apply clip_polygon_stages. now exists a1, a2, a3.
Qed.



(** X9.  When the polygon clipper raises, the exception is the [IndexError]
    of [polygon[-1]] on an empty list (never a division by zero), and no
    vertex of the input is inside the window. *)
Theorem clip_polygon_raises_only_index_error
    (w : window) (poly : polygon) (ex : exn) :
  sutherland_hodgman_clip poly w = Raise ex ->
  ex = IndexError /\ Forall (fun v => is_inside v w = false) poly.
Proof.
  intros Hrun. split; [now apply clip_polygon_raise in Hrun|].
  apply Forall_forall. intros v Hin.
  destruct (is_inside v w) eqn:Hv; [|reflexivity].
  destruct (clip_polygon_keeps w poly v Hin Hv) as (out & Hok & _).
  congruence.
Qed.

Lemma clip_polygon_raises_only_index_error_witness :
  IndexError = IndexError /\
  Forall (fun v => is_inside v (Window 0 0 10 10) = false)
    [(12, 1); (15, 1); (13, 3)].
Proof.
  apply (clip_polygon_raises_only_index_error (Window 0 0 10 10)
           [(12, 1); (15, 1); (13, 3)] IndexError).
  vm_compute. reflexivity.
Defined.

(** X10.  A vertex of the input that is inside the window is a vertex of
    the result, and the polygon clipper does not raise when there is one. *)
Theorem clip_polygon_keeps_inside_vertices
    (w : window) (poly : polygon) (v : point) :
  In v poly -> is_inside v w = true ->
  exists out, sutherland_hodgman_clip poly w = Ok out /\ In v out.
Proof.
  apply clip_polygon_keeps.
Qed.

Lemma clip_polygon_keeps_inside_vertices_witness :
  exists out,
    sutherland_hodgman_clip [(-5, 5); (5, 5); (5, 8)] (Window 0 0 10 10)
    = Ok out /\ In (5, 8) out.
Proof.
  apply (clip_polygon_keeps_inside_vertices (Window 0 0 10 10)
           [(-5, 5); (5, 5); (5, 8)] (5, 8)).
  - simpl. tauto.
  - vm_compute. reflexivity.
Defined.








(** X13.  A stage returns at most two vertices for a vertex of its input,
    so the polygon returned after the four stages has at most sixteen times
    the vertices of the input. *)
Theorem clip_polygon_length (w : window) (poly out : polygon) :
  sutherland_hodgman_clip poly w = Ok out ->
  (List.length out <= 16 * List.length poly)%nat.
Proof.
  intros Hrun. apply clip_polygon_stages in Hrun.
  destruct Hrun as (a1 & a2 & a3 & E1 & E2 & E3 & E4).
  apply clip_edge_more in E1, E2, E3, E4.
  destruct E1 as (_ & _ & L1 & _). destruct E2 as (_ & _ & L2 & _).
  destruct E3 as (_ & _ & L3 & _). destruct E4 as (_ & _ & L4 & _).
  lia.
Qed.

Lemma clip_polygon_length_witness :
  let poly : polygon := [(-5, 5); (5, 15); (15, 5)] in
  let out := match sutherland_hodgman_clip poly (Window 0 0 10 10) with
             | Ok out => out
             | Raise _ => []
             end in
  (List.length out <= 16 * List.length poly)%nat.
Proof.
  cbv zeta.
  apply (clip_polygon_length (Window 0 0 10 10)
           [(-5, 5); (5, 15); (15, 5)]).
  vm_compute. reflexivity.
Defined.

(** ** The parser *)

Section ParseMore.

Variable int_of_string : string -> option Z.
Variable float_of_string : string -> option Q.

Lemma parse_unfold (data : list string) (line0 : string) (n : Z) :
  nth_error data 0 = Some line0 ->
  int_of_string line0 = Some n ->
  parse_input_data int_of_string float_of_string data =
  (segments <- parse_segments float_of_string data 1 (Z.to_nat n) [] ;;
   if (Z.of_nat (List.length data) <? n + 2)%Z then
     Raise (ValueError "Missing clipping window data.")
   else
     wline <- getitem data (n + 1) ;;
     cw <- floats float_of_string (split wline) ;;
     match cw with
     | [xmin; ymin; xmax; ymax] =>
         poly <- parse_polygon float_of_string data n ;;
         Ok (segments, Window xmin ymin xmax ymax, poly)
     | _ =>
         Raise (ValueError
           "Invalid clipping window data. Expected 4 coordinates.")
     end).
Proof.
  intros H0 Hint. destruct data as [|l0 data]; [discriminate|].
  simpl in H0. injection H0 as ->.
  unfold parse_input_data. rewrite getitem_0. cbn [bind].
  unfold py_int. rewrite Hint. reflexivity.
Qed.

Lemma parse_segments_step (data : list string) (i : Z) (count : nat)
    (acc : list segment) (raw : string) (s : segment) :
  getitem data i = Ok raw ->
  reads_segment float_of_string raw s ->
  parse_segments float_of_string data i (S count) acc
  = parse_segments float_of_string data (i + 1) count (acc ++ [s]).
Proof.
  intros Hget [Hne Hfl]. cbn [parse_segments]. rewrite Hget. cbn [bind].
  destruct (strip raw) eqn:E; [contradiction|].
  rewrite Hfl. cbn [bind]. now destruct s as [[x1 y1] [x2 y2]].
Qed.

(** What a run of the loop over the segment lines has read when it ends
    without an exception. *)
Lemma parse_segments_ok (data : list string) (count : nat) :
  forall (i : Z) (acc segs : list segment),
  parse_segments float_of_string data i count acc = Ok segs ->
  exists new,
    segs = acc ++ new /\ List.length new = count /\
    forall k, (k < count)%nat ->
      exists raw s, getitem data (i + Z.of_nat k) = Ok raw /\
                    reads_segment float_of_string raw s /\
                    nth_error new k = Some s.
Proof.
  induction count as [|count IH]; intros i acc segs Hrun.
  - simpl in Hrun. injection Hrun as <-. exists [].
    rewrite app_nil_r. repeat split. intros k Hk. lia.
  - cbn [parse_segments] in Hrun.
    destruct (getitem data i) as [raw|] eqn:Hget; [|discriminate].
    cbn [bind] in Hrun.
    destruct (strip raw) as [|c line] eqn:Hstrip; [discriminate|].
    destruct (floats float_of_string (split (String c line)))
      as [coords|] eqn:Hfl; [|discriminate].
    cbn [bind] in Hrun.
    destruct coords as [|x1 [|y1 [|x2 [|y2 [|]]]]]; try discriminate.
    apply IH in Hrun. destruct Hrun as (new & -> & Hlen & Hk).
    exists (((x1, y1), (x2, y2)) :: new).
    split; [now rewrite <- app_assoc|]. split; [simpl; lia|].
    intros [|k] Hlt.
    + exists raw, ((x1, y1), (x2, y2)).
      rewrite Z.add_0_r. split; [exact Hget|]. split; [|reflexivity].
      split; rewrite Hstrip; [discriminate|exact Hfl].
    + destruct (Hk k) as (raw' & s & Hget' & Hs & Hnth); [lia|].
      exists raw', s.
      replace (i + Z.of_nat (S k))%Z with (i + 1 + Z.of_nat k)%Z by lia.
      split; [exact Hget'|]. split; [exact Hs|exact Hnth].
Qed.

Lemma parse_segments_valid (data : list string) (count : nat) :
  forall (i : Z) (acc : list segment),
  (forall k, (k < count)%nat ->
     exists raw s, getitem data (i + Z.of_nat k) = Ok raw /\
                   reads_segment float_of_string raw s) ->
  exists new,
    parse_segments float_of_string data i count acc = Ok (acc ++ new) /\
    List.length new = count.
Proof.
  induction count as [|count IH]; intros i acc Hall.
  - exists []. simpl. now rewrite app_nil_r.
  - destruct (Hall 0%nat) as (raw & s & Hget & Hs); [lia|].
    rewrite Z.add_0_r in Hget.
    rewrite (parse_segments_step data i count acc raw s Hget Hs).
    destruct (IH (i + 1)%Z (acc ++ [s])) as (new & Hrun & Hlen).
    { intros k Hk. destruct (Hall (S k)) as (raw' & s' & Hget' & Hs');
        [lia|].
      exists raw', s'.
      replace (i + 1 + Z.of_nat k)%Z with (i + Z.of_nat (S k))%Z by lia.
      now split. }
    exists (s :: new). rewrite Hrun, <- app_assoc.
    split; [reflexivity|simpl; lia].
Qed.

Lemma parse_segments_split (data : list string) (a b : nat) :
  forall (i : Z) (acc : list segment),
  parse_segments float_of_string data i (a + b) acc =
  (acc' <- parse_segments float_of_string data i a acc ;;
   parse_segments float_of_string data (i + Z.of_nat a) b acc').
Proof.
  induction a as [|a IH]; intros i acc.
  - simpl. now rewrite Z.add_0_r.
  - cbn [Nat.add parse_segments].
    destruct (getitem data i) as [raw|]; [|reflexivity]. cbn [bind].
    destruct (strip raw); [reflexivity|].
    destruct (floats float_of_string _) as [coords|]; [|reflexivity].
    cbn [bind].
    destruct coords as [|x1 [|y1 [|x2 [|y2 [|]]]]]; try reflexivity.
    rewrite IH.
    now replace (i + 1 + Z.of_nat a)%Z with (i + Z.of_nat (S a))%Z by lia.
Qed.

End ParseMore.

Lemma pairs_flatten (vertices : list Q) :
  (forall poly, pairs vertices = Ok poly -> flatten poly = vertices) /\
  (forall x poly, pairs (x :: vertices) = Ok poly ->
                  flatten poly = x :: vertices).
Proof.
  induction vertices as [|y vs [IHa IHb]].
  - split.
    + intros poly [= <-]. reflexivity.
    + intros x poly H. discriminate.
  - split.
    + apply IHb.
    + intros x poly H. cbn [pairs] in H.
      destruct (pairs vs) as [ps|] eqn:E; [|discriminate].
      cbn [bind] in H. injection H as <-. simpl.
      now rewrite (IHa ps eq_refl).
Qed.

Lemma pairs_even (vertices : list Q) :
  (Nat.even (List.length vertices) = true ->
   exists poly, pairs vertices = Ok poly) /\
  (forall x, Nat.even (List.length (x :: vertices)) = true ->
             exists poly, pairs (x :: vertices) = Ok poly).
Proof.
  induction vertices as [|y vs [IHa IHb]].
  - split.
    + intros _. now exists [].
    + intros x H. discriminate.
  - split.
    + apply IHb.
    + intros x H. cbn [pairs]. destruct IHa as [ps ->]; [exact H|].
      cbn [bind]. eauto.
Qed.

(** What the polygon line gives when it is read without an exception. *)
Lemma parse_polygon_ok (float_of_string : string -> option Q)
    (data : list string) (n : Z) (poly : polygon) :
  parse_polygon float_of_string data n = Ok poly ->
  ((Z.of_nat (List.length data) <= n + 2)%Z /\ poly = []) \/
  ((n + 2 < Z.of_nat (List.length data))%Z /\ poly <> [] /\
   exists line, getitem data (n + 2) = Ok line /\
                startswith_P line = true /\
                floats float_of_string (split (from_1 line))
                = Ok (flatten poly)).
Proof.
  unfold parse_polygon.
  destruct (Z.gtb_spec (Z.of_nat (List.length data)) (n + 2)) as [Hgt|Hle].
  - intros Hrun. right. split; [lia|].
    destruct (getitem data (n + 2)) as [line|]; [|discriminate].
    cbn [bind] in Hrun.
    destruct (startswith_P line) eqn:HP; [|discriminate].
    destruct (floats float_of_string (split (from_1 line)))
      as [vs|] eqn:Hfl; [|discriminate].
    cbn [bind] in Hrun.
    destruct (List.length vs <? 2)%nat eqn:Hlen; [discriminate|].
    destruct (negb (Nat.even (List.length vs))); [discriminate|].
    apply Nat.ltb_ge in Hlen.
    pose proof (proj1 (pairs_flatten vs) poly Hrun) as Hflat.
    split.
    + intros ->. simpl in Hflat. subst vs. simpl in Hlen. lia.
    + exists line. rewrite Hflat. auto.
  - intros [= <-]. left. split; [lia|reflexivity].
Qed.

(** X14.  When the parser returns, line 0 holds an integer [n], there are
    at least [n + 2] lines, as many segments are returned as [n] says (none
    for a negative [n]), the window holds the four numbers of line [n + 1]
    in their order, and the polygon is empty exactly when there is no line
    [n + 2]. *)
Theorem parse_success_shape
    (int_of_string : string -> option Z)
    (float_of_string : string -> option Q)
    (data : list string) (segs : list segment) (w : window)
    (poly : polygon) :
  parse_input_data int_of_string float_of_string data = Ok (segs, w, poly) ->
  exists line0 n,
    nth_error data 0 = Some line0 /\ int_of_string line0 = Some n /\
    List.length segs = Z.to_nat n /\
    (n + 2 <= Z.of_nat (List.length data))%Z /\
    (exists wline,
       getitem data (n + 1) = Ok wline /\
       floats float_of_string (split wline)
       = Ok [Xmin w; Ymin w; Xmax w; Ymax w]) /\
    (poly = [] <-> Z.of_nat (List.length data) = (n + 2)%Z).
Proof.
  intros Hrun.
  destruct data as [|line0 data']; [discriminate|].
  destruct (int_of_string line0) as [n|] eqn:Hint.
  2:{ unfold parse_input_data in Hrun. rewrite getitem_0 in Hrun.
      cbn [bind] in Hrun. unfold py_int in Hrun. rewrite Hint in Hrun.
      discriminate. }
  exists line0, n. split; [reflexivity|]. split; [exact Hint|].
  rewrite (parse_unfold int_of_string float_of_string (line0 :: data') line0 n
             eq_refl Hint)
    in Hrun.
  destruct (parse_segments float_of_string _ 1 (Z.to_nat n) [])
    as [segments|] eqn:Hsegs; [|discriminate].
  cbn [bind] in Hrun.
  destruct (Z.ltb_spec (Z.of_nat (List.length (line0 :: data'))) (n + 2))
    as [|Hlen]; [discriminate|].
  destruct (getitem (line0 :: data') (n + 1)) as [wline|] eqn:Hw;
    [|discriminate].
  cbn [bind] in Hrun.
  destruct (floats float_of_string (split wline)) as [cw|] eqn:Hcw;
    [|discriminate].
  cbn [bind] in Hrun.
  destruct cw as [|a [|b [|c [|d [|]]]]]; try discriminate.
  destruct (parse_polygon float_of_string (line0 :: data') n)
    as [poly'|] eqn:Hpoly; [|discriminate].
  cbn [bind] in Hrun. injection Hrun as <- <- <-.
  apply parse_segments_ok in Hsegs.
  destruct Hsegs as (new & -> & Hcount & _).
  split; [exact Hcount|]. split; [lia|]. split.
  - exists wline. now split.
  - apply parse_polygon_ok in Hpoly.
    destruct Hpoly as [[Hle ->]|(Hlt & Hne & _)].
    + split; [lia|reflexivity].
    + split; [contradiction|lia].
Qed.

Lemma parse_success_shape_witness :
  exists line0 n,
    nth_error ["1"; "1 1 2 2"; "0 0 10 10"]%string 0 = Some line0 /\
    dec_int line0 = Some n /\
    List.length [((1, 1), (2, 2))] = Z.to_nat n /\
    (n + 2 <= Z.of_nat (List.length ["1"; "1 1 2 2"; "0 0 10 10"]%string))%Z /\
    (exists wline,
       getitem ["1"; "1 1 2 2"; "0 0 10 10"]%string (n + 1) = Ok wline /\
       floats dec_float (split wline)
       = Ok [Xmin (Window 0 0 10 10); Ymin (Window 0 0 10 10);
             Xmax (Window 0 0 10 10); Ymax (Window 0 0 10 10)]) /\
    (@nil point = [] <->
     Z.of_nat (List.length ["1"; "1 1 2 2"; "0 0 10 10"]%string) = (n + 2)%Z).
Proof.
  apply (parse_success_shape dec_int dec_float
           ["1"; "1 1 2 2"; "0 0 10 10"]%string
           [((1, 1), (2, 2))] (Window 0 0 10 10) []).
  vm_compute. reflexivity.
Defined.

(** X15.  The segments are returned in the order of their lines: segment
    [k] (from 0) is read from line [k + 1], which is not blank and whose
    four numbers are the coordinates x1, y1, x2, y2 of the segment. *)
Theorem parse_segments_in_order
    (int_of_string : string -> option Z)
    (float_of_string : string -> option Q)
    (data : list string) (segs : list segment) (w : window)
    (poly : polygon) (k : nat) :
  parse_input_data int_of_string float_of_string data = Ok (segs, w, poly) ->
  (k < List.length segs)%nat ->
  exists raw s,
    getitem data (1 + Z.of_nat k) = Ok raw /\
    reads_segment float_of_string raw s /\
    nth_error segs k = Some s.
Proof.
  intros Hrun Hk.
  destruct data as [|line0 data']; [discriminate|].
  destruct (int_of_string line0) as [n|] eqn:Hint.
  2:{ unfold parse_input_data in Hrun. rewrite getitem_0 in Hrun.
      cbn [bind] in Hrun. unfold py_int in Hrun. rewrite Hint in Hrun.
      discriminate. }
  rewrite (parse_unfold int_of_string float_of_string (line0 :: data') line0 n
             eq_refl Hint)
    in Hrun.
  destruct (parse_segments float_of_string _ 1 (Z.to_nat n) [])
    as [segments|] eqn:Hsegs; [|discriminate].
  cbn [bind] in Hrun.
  assert (segments = segs).
  { destruct (_ <? _)%Z; [discriminate|].
    destruct (getitem _ _) as [wl|]; [|discriminate]. cbn [bind] in Hrun.
    destruct (floats _ _) as [cw|]; [|discriminate]. cbn [bind] in Hrun.
    destruct cw as [|c1 [|c2 [|c3 [|c4 [|]]]]]; try discriminate.
    destruct (parse_polygon _ _ _) as [pl|]; [|discriminate].
    cbn [bind] in Hrun. now injection Hrun. }
  subst segments. apply parse_segments_ok in Hsegs.
  destruct Hsegs as (new & -> & Hcount & Hlines).
  simpl in Hk. apply Hlines. lia.
Qed.

Lemma parse_segments_in_order_witness :
  exists raw s,
    getitem ["2"; "1 1 2 2"; " 3 4 5 6"; "0 0 10 10"]%string
      (1 + Z.of_nat 1) = Ok raw /\
    reads_segment dec_float raw s /\
    nth_error [((1, 1), (2, 2)); ((3, 4), (5, 6))] 1 = Some s.
Proof.
  apply (parse_segments_in_order dec_int dec_float
           ["2"; "1 1 2 2"; " 3 4 5 6"; "0 0 10 10"]%string
           [((1, 1), (2, 2)); ((3, 4), (5, 6))] (Window 0 0 10 10) [] 1).
  - vm_compute. reflexivity.
  - simpl. lia.
Defined.

(** X16.  The polygon that is returned holds the numbers of the polygon
    line: when it is not empty, line [n + 2] starts with [P] and the
    numbers after the [P] are the coordinates of the vertices, in order. *)
Theorem parse_polygon_round_trip
    (int_of_string : string -> option Z)
    (float_of_string : string -> option Q)
    (data : list string) (line0 : string) (n : Z)
    (segs : list segment) (w : window) (poly : polygon) :
  nth_error data 0 = Some line0 ->
  int_of_string line0 = Some n ->
  parse_input_data int_of_string float_of_string data = Ok (segs, w, poly) ->
  poly <> [] ->
  exists line,
    getitem data (n + 2) = Ok line /\
    startswith_P line = true /\
    floats float_of_string (split (from_1 line)) = Ok (flatten poly).
Proof.
  intros H0 Hint Hrun Hne.
  rewrite (parse_unfold int_of_string float_of_string data line0 n H0 Hint)
    in Hrun.
  destruct (parse_segments float_of_string data 1 (Z.to_nat n) [])
    as [segments|]; [|discriminate].
  cbn [bind] in Hrun.
  destruct (_ <? _)%Z; [discriminate|].
  destruct (getitem data (n + 1)) as [wl|]; [|discriminate].
  cbn [bind] in Hrun.
  destruct (floats float_of_string (split wl)) as [cw|]; [|discriminate].
  cbn [bind] in Hrun.
  destruct cw as [|c1 [|c2 [|c3 [|c4 [|]]]]]; try discriminate.
  destruct (parse_polygon float_of_string data n) as [pl|] eqn:Hpoly;
    [|discriminate].
  cbn [bind] in Hrun. injection Hrun as _ _ ->.
  apply parse_polygon_ok in Hpoly.
  destruct Hpoly as [[_ ->]|(_ & _ & Hline)]; [contradiction|exact Hline].
Qed.

Lemma parse_polygon_round_trip_witness :
  exists line,
    getitem ["0"; "0 0 10 10"; "P2 2 8 2 8 8"]%string (0 + 2) = Ok line /\
    startswith_P line = true /\
    floats dec_float (split (from_1 line))
    = Ok (flatten [(2, 2); (8, 2); (8, 8)]).
Proof.
  apply (parse_polygon_round_trip dec_int dec_float
           ["0"; "0 0 10 10"; "P2 2 8 2 8 8"]%string "0"%string 0%Z
           [] (Window 0 0 10 10) [(2, 2); (8, 2); (8, 8)]).
  - reflexivity.
  - reflexivity.
  - vm_compute. reflexivity.
  - discriminate.
Defined.

Lemma getitem_nth {A : Type} (l : list A) (k : nat) (a : A) :
  nth_error l k = Some a -> getitem l (Z.of_nat k) = Ok a.
Proof. intros H. now rewrite getitem_nat, H. Qed.

Lemma getitem_past_end {A : Type} (l : list A) :
  getitem l (Z.of_nat (List.length l)) = Raise IndexError.
Proof.
  rewrite getitem_nat.
  now rewrite (proj2 (nth_error_None l (List.length l)) (Nat.le_refl _)).
Qed.

(** The segment lines before line [i] are read without an exception. *)
Lemma parse_segments_prefix (float_of_string : string -> option Q)
    (data : list string) (i : nat) :
  (forall k, (1 <= k < i)%nat ->
     exists raw s, nth_error data k = Some raw /\
                   reads_segment float_of_string raw s) ->
  exists new,
    parse_segments float_of_string data 1 (i - 1) [] = Ok new.
Proof.
  intros Hall.
  destruct (parse_segments_valid float_of_string data (i - 1) 1%Z [])
    as (new & Hrun & _).
  - intros k Hk. destruct (Hall (S k)) as (raw & s & Hnth & Hs); [lia|].
    exists raw, s. split; [|exact Hs].
    replace (1 + Z.of_nat k)%Z with (Z.of_nat (S k)) by lia.
    now apply getitem_nth.
  - exists new. exact Hrun.
Qed.

(** X17.  When line 0 declares more segments than there are lines after it
    and the segment lines that are present are valid, the parser raises
    [IndexError] at the first absent line: the error is not a [ValueError]
    and names no line. *)
Theorem parse_absent_segment_line
    (int_of_string : string -> option Z)
    (float_of_string : string -> option Q)
    (data : list string) (line0 : string) (n : Z) :
  nth_error data 0 = Some line0 ->
  int_of_string line0 = Some n ->
  (Z.of_nat (List.length data) <= n)%Z ->
  (forall k, (1 <= k < List.length data)%nat ->
     exists raw s, nth_error data k = Some raw /\
                   reads_segment float_of_string raw s) ->
  parse_input_data int_of_string float_of_string data = Raise IndexError.
Proof.
  intros H0 Hint Hlen Hall.
  rewrite (parse_unfold int_of_string float_of_string data line0 n H0 Hint).
  assert (Hpos : (1 <= List.length data)%nat).
  { destruct data; [discriminate|simpl; lia]. }
  replace (Z.to_nat n)
    with ((List.length data - 1) + S (Z.to_nat n - List.length data))%nat
    by lia.
  rewrite parse_segments_split.
  destruct (parse_segments_prefix float_of_string data (List.length data) Hall)
    as (new & ->).
  cbn [bind parse_segments].
  replace (1 + Z.of_nat (List.length data - 1))%Z
    with (Z.of_nat (List.length data)) by lia.
  now rewrite getitem_past_end.
Qed.

Lemma parse_absent_segment_line_witness :
  parse_input_data dec_int dec_float ["3"; "1 1 2 2"; "0 0 10 10"]%string
  = Raise IndexError.
Proof.
  apply (parse_absent_segment_line dec_int dec_float
           ["3"; "1 1 2 2"; "0 0 10 10"]%string "3"%string 3%Z).
  - reflexivity.
  - reflexivity.
  - simpl. lia.
  - intros k Hk. simpl in Hk.
    assert (E : k = 1%nat \/ k = 2%nat) by lia.
    destruct E as [->| ->].
    + exists "1 1 2 2"%string, ((1, 1), (2, 2)).
      split; [reflexivity|]. split; [vm_compute; discriminate|].
      vm_compute. reflexivity.
    + exists "0 0 10 10"%string, ((0, 0), (10, 10)).
      split; [reflexivity|]. split; [vm_compute; discriminate|].
      vm_compute. reflexivity.
Defined.

(** X18.  The errors of the segment loop cite the line by its number from 1:
    when line [i] (from 0) is the first segment line that is not valid, a
    blank line gives "Missing segment data at line i+1." and a line of
    numbers that are not four gives "Invalid segment data at line i+1.
    Expected 4 coordinates.". *)
Theorem parse_segment_error_line
    (int_of_string : string -> option Z)
    (float_of_string : string -> option Q)
    (data : list string) (line0 raw : string) (n : Z) (i : nat) :
  nth_error data 0 = Some line0 ->
  int_of_string line0 = Some n ->
  (1 <= i)%nat -> (Z.of_nat i <= n)%Z ->
  (forall k, (1 <= k < i)%nat ->
     exists raw' s, nth_error data k = Some raw' /\
                    reads_segment float_of_string raw' s) ->
  nth_error data i = Some raw ->
  (strip raw = EmptyString ->
   parse_input_data int_of_string float_of_string data
   = Raise (ValueError
       ("Missing segment data at line "
        ++ str_of_Z (Z.of_nat i + 1)%Z ++ ".")%string))
  /\
  (forall coords,
     strip raw <> EmptyString ->
     floats float_of_string (split (strip raw)) = Ok coords ->
     List.length coords <> 4%nat ->
     parse_input_data int_of_string float_of_string data
     = Raise (ValueError
         ("Invalid segment data at line "
          ++ str_of_Z (Z.of_nat i + 1)%Z
          ++ ". Expected 4 coordinates.")%string)).
Proof.
  intros H0 Hint Hi Hin Hall Hraw.
  rewrite (parse_unfold int_of_string float_of_string data line0 n H0 Hint).
  replace (Z.to_nat n) with ((i - 1) + S (Z.to_nat n - i))%nat by lia.
  rewrite parse_segments_split.
  destruct (parse_segments_prefix float_of_string data i Hall) as (new & ->).
  cbn [bind parse_segments].
  replace (1 + Z.of_nat (i - 1))%Z with (Z.of_nat i) by lia.
  rewrite (getitem_nth data i raw Hraw). cbn [bind].
  split.
  - intros ->. reflexivity.
  - intros coords Hne Hfl Hlen.
    destruct (strip raw) as [|c line]; [contradiction|].
    rewrite Hfl. cbn [bind].
    destruct coords as [|x1 [|y1 [|x2 [|y2 [|]]]]]; try reflexivity.
    simpl in Hlen. contradiction.
Qed.

Lemma parse_segment_error_line_witness :
  (strip "1 2 3" = EmptyString ->
   parse_input_data dec_int dec_float ["2"; "1 1 2 2"; "1 2 3"]%string
   = Raise (ValueError
       ("Missing segment data at line "
        ++ str_of_Z (Z.of_nat 2 + 1)%Z ++ ".")%string))
  /\
  (forall coords,
     strip "1 2 3" <> EmptyString ->
     floats dec_float (split (strip "1 2 3")) = Ok coords ->
     List.length coords <> 4%nat ->
     parse_input_data dec_int dec_float ["2"; "1 1 2 2"; "1 2 3"]%string
     = Raise (ValueError
         ("Invalid segment data at line "
          ++ str_of_Z (Z.of_nat 2 + 1)%Z
          ++ ". Expected 4 coordinates.")%string)).
Proof.
  apply (parse_segment_error_line dec_int dec_float
           ["2"; "1 1 2 2"; "1 2 3"]%string "2"%string "1 2 3"%string
           2%Z 2%nat).
  - reflexivity.
  - reflexivity.
  - lia.
  - lia.
  - intros k Hk. assert (k = 1%nat) as -> by lia.
    exists "1 1 2 2"%string, ((1, 1), (2, 2)).
    split; [reflexivity|]. split; [vm_compute; discriminate|].
    vm_compute. reflexivity.
  - reflexivity.
Defined.

(** X19.  When the declared segment lines are all there and valid and no
    line follows them, the parser raises "Missing clipping window data.". *)
Theorem parse_missing_window
    (int_of_string : string -> option Z)
    (float_of_string : string -> option Q)
    (data : list string) (line0 : string) (n : Z) :
  nth_error data 0 = Some line0 ->
  int_of_string line0 = Some n ->
  Z.of_nat (List.length data) = (n + 1)%Z ->
  (forall k, (1 <= k < List.length data)%nat ->
     exists raw s, nth_error data k = Some raw /\
                   reads_segment float_of_string raw s) ->
  parse_input_data int_of_string float_of_string data
  = Raise (ValueError "Missing clipping window data.").
Proof.
  intros H0 Hint Hlen Hall.
  rewrite (parse_unfold int_of_string float_of_string data line0 n H0 Hint).
  replace (Z.to_nat n) with (List.length data - 1)%nat by lia.
  destruct (parse_segments_prefix float_of_string data (List.length data) Hall)
    as (new & ->).
  cbn [bind].
  destruct (Z.ltb_spec (Z.of_nat (List.length data)) (n + 2)); [|lia].
  reflexivity.
Qed.

Lemma parse_missing_window_witness :
  parse_input_data dec_int dec_float ["1"; "1 1 2 2"]%string
  = Raise (ValueError "Missing clipping window data.").
Proof.
  apply (parse_missing_window dec_int dec_float
           ["1"; "1 1 2 2"]%string "1"%string 1%Z).
  - reflexivity.
  - reflexivity.
  - reflexivity.
  - intros k Hk. simpl in Hk. assert (k = 1%nat) as -> by lia.
    exists "1 1 2 2"%string, ((1, 1), (2, 2)).
    split; [reflexivity|]. split; [vm_compute; discriminate|].
    vm_compute. reflexivity.
Defined.

Lemma pairs_of_even (vertices : list Q) :
  Nat.even (List.length vertices) = true ->
  exists poly, pairs vertices = Ok poly /\ flatten poly = vertices.
Proof.
  intros Heven.
  destruct (proj1 (pairs_even vertices) Heven) as [poly Hp].
  exists poly. split; [exact Hp|].
  now apply (proj1 (pairs_flatten vertices)).
Qed.

(** X20.  What a line after the window line does to an input that is
    parsed without it.  A line that does not start with [P] is an error; a
    line that starts with [P] followed by fewer than two numbers, or by an
    odd count of numbers, is an error; followed by an even count of at least
    two numbers it gives the polygon of these coordinates, with the same
    segments and window. *)
Theorem parse_polygon_line
    (int_of_string : string -> option Z)
    (float_of_string : string -> option Q)
    (pre rest : list string) (line0 line : string) (n : Z)
    (segs : list segment) (w : window) (poly0 : polygon) :
  nth_error pre 0 = Some line0 ->
  int_of_string line0 = Some n ->
  Z.of_nat (List.length pre) = (n + 2)%Z ->
  parse_input_data int_of_string float_of_string pre = Ok (segs, w, poly0) ->
  let result :=
    parse_input_data int_of_string float_of_string (pre ++ line :: rest) in
  (startswith_P line = false ->
   result = Raise (ValueError
     "Invalid data format. Expected polygon data starting with 'P'."))
  /\
  (forall vertices,
     startswith_P line = true ->
     floats float_of_string (split (from_1 line)) = Ok vertices ->
     ((List.length vertices < 2)%nat ->
      result = Raise (ValueError
        "Invalid polygon data. At least one vertex required."))
     /\
     ((2 <= List.length vertices)%nat ->
      Nat.even (List.length vertices) = false ->
      result = Raise (ValueError
        "Invalid polygon data. Coordinates must be in pairs."))
     /\
     ((2 <= List.length vertices)%nat ->
      Nat.even (List.length vertices) = true ->
      exists poly, result = Ok (segs, w, poly) /\
                   flatten poly = vertices)).
Proof.
  intros H0 Hint Hlen Hrun result.
  assert (H0' : nth_error (pre ++ line :: rest) 0 = Some line0).
  { destruct pre; [discriminate|exact H0]. }
  assert (Hpos : (1 <= List.length pre)%nat).
  { destruct pre; [discriminate|simpl; lia]. }
  rewrite (parse_unfold int_of_string float_of_string pre line0 n H0 Hint)
    in Hrun.
  assert (Hres : result =
    (poly <- parse_polygon float_of_string (pre ++ line :: rest) n ;;
     Ok (segs, w, poly))).
  { unfold result.
    rewrite (parse_unfold int_of_string float_of_string _ line0 n H0' Hint).
    rewrite parse_segments_app by lia.
    destruct (parse_segments float_of_string pre 1 (Z.to_nat n) [])
      as [segments|]; [|discriminate].
    cbn [bind] in *.
    rewrite length_app, Nat2Z.inj_add. cbn [List.length].
    rewrite Nat2Z.inj_succ.
    destruct (Z.ltb_spec (Z.of_nat (List.length pre)
                          + Z.succ (Z.of_nat (List.length rest))) (n + 2));
      [lia|].
    destruct (Z.ltb_spec (Z.of_nat (List.length pre)) (n + 2)); [lia|].
    rewrite getitem_app_l by lia.
    destruct (getitem pre (n + 1)) as [wl|]; [|discriminate].
    cbn [bind] in *.
    destruct (floats float_of_string (split wl)) as [cw|]; [|discriminate].
    cbn [bind] in *.
    destruct cw as [|c1 [|c2 [|c3 [|c4 [|]]]]]; try discriminate.
    destruct (parse_polygon float_of_string pre n) as [pl|]; [|discriminate].
    cbn [bind] in Hrun. now injection Hrun as -> -> _. }
  assert (Hpoly : parse_polygon float_of_string (pre ++ line :: rest) n =
    if startswith_P line then
      vertices <- floats float_of_string (split (from_1 line)) ;;
      if (List.length vertices <? 2)%nat then
        Raise (ValueError
          "Invalid polygon data. At least one vertex required.")
      else if negb (Nat.even (List.length vertices)) then
        Raise (ValueError
          "Invalid polygon data. Coordinates must be in pairs.")
      else pairs vertices
    else
      Raise (ValueError
        "Invalid data format. Expected polygon data starting with 'P'.")).
  { unfold parse_polygon.
    rewrite length_app, Nat2Z.inj_add. cbn [List.length].
    rewrite Nat2Z.inj_succ.
    destruct (Z.gtb_spec (Z.of_nat (List.length pre)
                          + Z.succ (Z.of_nat (List.length rest))) (n + 2));
      [|lia].
    replace (n + 2)%Z with (Z.of_nat (List.length pre) + 0)%Z by lia.
    rewrite getitem_app_r by lia. rewrite getitem_0. reflexivity. }
  rewrite Hres, Hpoly. split.
  - intros ->. reflexivity.
  - intros vertices -> ->. cbn [bind]. repeat split.
    + intros Hlt. apply Nat.ltb_lt in Hlt. now rewrite Hlt.
    + intros Hge Hodd. apply Nat.ltb_ge in Hge. now rewrite Hge, Hodd.
    + intros Hge Heven. apply Nat.ltb_ge in Hge. rewrite Hge, Heven.
      cbn [negb].
      destruct (pairs_of_even vertices Heven) as (poly & -> & Hflat).
      exists poly. now split.
Qed.

Lemma parse_polygon_line_witness :
  let result :=
    parse_input_data dec_int dec_float
      (["0"; "0 0 10 10"]%string ++ "P2 2 8 2 8"%string :: []) in
  (startswith_P "P2 2 8 2 8" = false ->
   result = Raise (ValueError
     "Invalid data format. Expected polygon data starting with 'P'."))
  /\
  (forall vertices,
     startswith_P "P2 2 8 2 8" = true ->
     floats dec_float (split (from_1 "P2 2 8 2 8")) = Ok vertices ->
     ((List.length vertices < 2)%nat ->
      result = Raise (ValueError
        "Invalid polygon data. At least one vertex required."))
     /\
     ((2 <= List.length vertices)%nat ->
      Nat.even (List.length vertices) = false ->
      result = Raise (ValueError
        "Invalid polygon data. Coordinates must be in pairs."))
     /\
     ((2 <= List.length vertices)%nat ->
      Nat.even (List.length vertices) = true ->
      exists poly, result = Ok ([], Window 0 0 10 10, poly) /\
                   flatten poly = vertices)).
Proof.
  apply (parse_polygon_line dec_int dec_float
           ["0"; "0 0 10 10"]%string [] "0"%string "P2 2 8 2 8"%string 0%Z
           [] (Window 0 0 10 10) []).
  - reflexivity.
  - reflexivity.
  - reflexivity.
  - vm_compute. reflexivity.
Defined.

(** ** The request handler *)









